(** * Input validation of the Archestra coding agent

    A shallow embedding of the two validators of
    [archestra-coding-agent/src/tools]:

    - [_sanitize_path] of [git_tools.py], the confinement of a target
      directory inside the workspace directory;
    - [_parse_repo_info] of [github_tools.py], the parser of repository
      references.

    Python's [str] is modelled by [string]: a character is an [ascii], read
    as a code point below 256.  The functions of [os.path] and of [re] that
    the validators call belong to the Python library, not to the repository;
    they are embedded here from the reference implementation of the POSIX
    flavour ([posixpath.py]) and from the documented semantics of the
    backtracking matcher, because the validators decide nothing without
    them.  What [os.getcwd()] returns is a value given to the model; a call
    that raises is an [outcome] that is not [Return]. *)

From Stdlib Require Import Bool Arith Lia List Ascii String.
Import ListNotations.
Open Scope list_scope.
Open Scope string_scope.

Set Implicit Arguments.

(** ** Python values *)

(** The exceptions that the modelled code can raise. *)
Inductive exn : Type :=
| ValueError (msg : string)
| IndexError.

(** The outcome of a call: a value, or an exception that propagates. *)
Inductive outcome (A : Type) : Type :=
| Return (a : A)
| Raise (e : exn).

Arguments Return {A} a.
Arguments Raise {A} e.

Definition bind {A B : Type} (m : outcome A) (f : A -> outcome B) : outcome B :=
  match m with
  | Return a => f a
  | Raise e => Raise e
  end.

Notation "x <- m ;; k" := (bind m (fun x => k))
  (at level 61, m at next level, right associativity).

(** ** Methods of [str] *)

Module Str.

(** [s.startswith(p)] *)
Definition startswith (s p : string) : bool := String.prefix p s.

(** [s.endswith(p)]: [p] is [s] or a suffix of its tail. *)
Fixpoint endswith (s p : string) : bool :=
  (s =? p) ||
  match s with
  | EmptyString => false
  | String _ r => endswith r p
  end.

(** [s.split(sep)] for a separator of one character: never an empty
    list, and one more field than there are separators. *)
Fixpoint split (sep : ascii) (s : string) : list string :=
  match s with
  | EmptyString => [EmptyString]
  | String c r =>
      if Ascii.eqb c sep then EmptyString :: split sep r
      else match split sep r with
           | f :: fs => String c f :: fs
           | [] => [String c EmptyString]
           end
  end.

(** [s * n] *)
Fixpoint repeat (s : string) (n : nat) : string :=
  match n with
  | O => EmptyString
  | S n' => s ++ repeat s n'
  end.

(** [c.isspace()] on the code points below 256: the ASCII white space
    0x09-0x0D, 0x1C-0x1F and 0x20, then NEL (0x85) and NBSP (0xA0). *)
Definition isspace (c : ascii) : bool :=
  let n := nat_of_ascii c in
  (((9 <=? n) && (n <=? 13)) || ((28 <=? n) && (n <=? 32))
   || (n =? 133) || (n =? 160))%nat.

Fixpoint lstrip (s : string) : string :=
  match s with
  | EmptyString => EmptyString
  | String c r => if isspace c then lstrip r else s
  end.

Fixpoint rstrip (s : string) : string :=
  match s with
  | EmptyString => EmptyString
  | String c r =>
      match rstrip r with
      | EmptyString => if isspace c then EmptyString else String c EmptyString
      | r' => String c r'
      end
  end.

(** [s.strip()] *)
Definition strip (s : string) : string := rstrip (lstrip s).

(** [s[n:]] *)
Fixpoint drop (n : nat) (s : string) : string :=
  match n, s with
  | O, _ => s
  | S n', String _ r => drop n' r
  | S _, EmptyString => EmptyString
  end.

Fixpoint forallb (p : ascii -> bool) (s : string) : bool :=
  match s with
  | EmptyString => true
  | String c r => p c && forallb p r
  end.

End Str.

(** ** [os.path] on POSIX *)

Module posixpath.

Definition sep : string := "/".

(** [isabs(s)]: [s.startswith(sep)] *)
Definition isabs (s : string) : bool := Str.startswith s sep.

(** [join(a, b)] with one component to add. *)
Definition join (a b : string) : string :=
  if Str.startswith b sep then b
  else if (a =? "") || Str.endswith a sep then a ++ b
  else a ++ sep ++ b.

Definition is_nil {A : Type} (l : list A) : bool :=
  match l with [] => true | _ => false end.

(** One turn of the loop of [normpath] over the components; [new_comps]
    grows and shrinks at its end. *)
Definition normpath_step (initial_slashes : nat)
    (new_comps : list string) (comp : string) : list string :=
  if (comp =? "") || (comp =? ".") then new_comps
  else if negb (comp =? "..")
          || ((initial_slashes =? 0)%nat && is_nil new_comps)
          || (negb (is_nil new_comps) && (last new_comps "" =? ".."))
  then (new_comps ++ [comp])%list
  else if negb (is_nil new_comps) then removelast new_comps
  else new_comps.

(** POSIX keeps two leading slashes and folds three or more into one. *)
Definition initial_slashes (path : string) : nat :=
  if Str.startswith path sep then
    if Str.startswith path (Str.repeat sep 2)
       && negb (Str.startswith path (Str.repeat sep 3))
    then 2 else 1
  else 0.

Definition normpath (path : string) : string :=
  if path =? "" then "."
  else
    let slashes := initial_slashes path in
    let comps := Str.split "/" path in
    let new_comps := fold_left (normpath_step slashes) comps [] in
    let path := String.concat sep new_comps in
    let path := if (slashes =? 0)%nat then path
                else Str.repeat sep slashes ++ path in
    if path =? "" then "." else path.

(** [abspath(path)]; [cwd] is what [os.getcwd()] returns. *)
Definition abspath (cwd path : string) : string :=
  normpath (if isabs path then path else join cwd path).

(** Python's [<] and [>] on lists of strings: the first pair of unequal
    elements decides, else the lengths do. *)
Fixpoint list_lt (a b : list string) : bool :=
  match a, b with
  | [], [] => false
  | [], _ :: _ => true
  | _ :: _, [] => false
  | x :: a', y :: b' =>
      if x =? y then list_lt a' b'
      else match String.compare x y with Lt => true | _ => false end
  end.

Fixpoint list_gt (a b : list string) : bool :=
  match a, b with
  | [], [] => false
  | [], _ :: _ => false
  | _ :: _, [] => true
  | x :: a', y :: b' =>
      if x =? y then list_gt a' b'
      else match String.compare x y with Gt => true | _ => false end
  end.

(** [min] and [max] keep the first of the least (greatest) items. *)
Definition py_min (first : list string) (others : list (list string))
  : list string :=
  fold_left (fun best item => if list_lt item best then item else best)
            others first.

Definition py_max (first : list string) (others : list (list string))
  : list string :=
  fold_left (fun best item => if list_gt item best then item else best)
            others first.

(** The loop [for i, c in enumerate(s1): if c != s2[i]: ...] of
    [commonpath], from index [i] on; [s2[i]] raises out of range. *)
Fixpoint common_loop (s1 s2 : list string) (i : nat) (todo : list string)
  : outcome (list string) :=
  match todo with
  | [] => Return s1
  | c :: todo' =>
      match nth_error s2 i with
      | None => Raise IndexError
      | Some d =>
          if negb (c =? d) then Return (firstn i s1)
          else common_loop s1 s2 (S i) todo'
      end
  end.

Definition kept (c : string) : bool := negb (c =? "") && negb (c =? ".").

Definition commonpath (paths : list string) : outcome string :=
  match paths with
  | [] => Raise (ValueError "commonpath() arg is an empty sequence")
  | p :: ps =>
      if negb (List.forallb (fun q => Bool.eqb (isabs q) (isabs p)) ps)
      then Raise (ValueError "Can't mix absolute and relative paths")
      else
        let split_paths :=
          map (fun q => filter kept (Str.split "/" q)) paths in
        match split_paths with
        | [] => Raise (ValueError "commonpath() arg is an empty sequence")
        | sp :: sps =>
            let s1 := py_min sp sps in
            let s2 := py_max sp sps in
            common <- common_loop s1 s2 0 s1 ;;
            let prefix := if isabs p then sep else "" in
            Return (prefix ++ String.concat sep common)
        end
  end.

End posixpath.

(** ** [git_tools.py] *)

Section GitTools.

(** The working directory of the process, read by [os.path.abspath]. *)
Variable cwd : string.

Definition absolute_msg (target_dir : string) : string :=
  "Absolute paths are not allowed. Use a relative directory name instead of '"
  ++ target_dir ++ "'".

Definition traversal_msg (base_dir : string) : string :=
  "Path traversal detected. Target must be within " ++ base_dir.

Definition invalid_msg (base_dir : string) : string :=
  "Invalid path. Target must be within " ++ base_dir.

(** [_sanitize_path(target_dir, base_dir)]: the pair
    [(sanitized_full_path, error_message)]. *)
Definition _sanitize_path (target_dir base_dir : string)
  : outcome (string * option string) :=
  if posixpath.isabs target_dir then
    Return ("", Some (absolute_msg target_dir))
  else
    let base_dir := posixpath.abspath cwd base_dir in
    let full_path := posixpath.normpath (posixpath.join base_dir target_dir) in
    match posixpath.commonpath [base_dir; full_path] with
    | Raise (ValueError _) => Return ("", Some (invalid_msg base_dir))
    | Raise e => Raise e
    | Return common =>
        if negb (common =? base_dir) then
          Return ("", Some (traversal_msg base_dir))
        else if negb ((full_path =? base_dir)
                      || Str.startswith full_path (base_dir ++ posixpath.sep))
        then Return ("", Some (traversal_msg base_dir))
        else Return (full_path, None)
    end.

End GitTools.

(** ** [re]: the backtracking matcher

    The fragment of the pattern language that [github_tools.py] uses:
    literals, character sets, [?], [+] and [+?] on a character set,
    capturing groups, [^] and [$].  The matcher explores the alternatives
    in the order of Python's: a greedy operator tries the longer match first,
    a lazy one the shorter, and the first complete match wins. *)

Module Re.

Inductive item : Type :=
| Range (lo hi : ascii)
| Chr (c : ascii).

(** A character set [[...]]. *)
Definition charset : Type := list item.

Definition in_item (c : ascii) (it : item) : bool :=
  match it with
  | Range lo hi =>
      ((nat_of_ascii lo <=? nat_of_ascii c)
       && (nat_of_ascii c <=? nat_of_ascii hi))%nat
  | Chr d => Ascii.eqb c d
  end.

Definition in_set (cs : charset) (c : ascii) : bool :=
  existsb (in_item c) cs.

Inductive regex : Type :=
| Lit (l : string)                    (* the characters of [l] *)
| Seq (r1 r2 : regex)                 (* [r1 r2] *)
| Opt (r : regex)                     (* [(?:r)?] *)
| Plus (greedy : bool) (cs : charset) (* [[cs]+] and [[cs]+?] *)
| Group (i : nat) (r : regex)         (* [(r)], the group number [i] *)
| Bos                                 (* [^] *)
| Eos.                                (* [$] *)

Fixpoint cat (rs : list regex) : regex :=
  match rs with
  | [] => Lit ""
  | [r] => r
  | r :: rs' => Seq r (cat rs')
  end.

(** The groups matched so far, the latest first. *)
Definition captures : Type := list (nat * string).

Definition LF : ascii := ascii_of_nat 10.

Section Matcher.

Variable A : Type.

(** What remains to be matched: from a position, the rest of the
    subject and the groups, to the result of the whole match. *)
Definition cont : Type := nat -> string -> captures -> option A.

Definition orelse (x y : option A) : option A :=
  match x with Some _ => x | None => y end.

(** Zero or more characters of [cs], the most first. *)
Fixpoint many_greedy (cs : charset) (pos : nat) (s : string)
    (caps : captures) (k : cont) : option A :=
  match s with
  | String c r =>
      if in_set cs c
      then orelse (many_greedy cs (S pos) r caps k) (k pos s caps)
      else k pos s caps
  | EmptyString => k pos s caps
  end.

(** Zero or more characters of [cs], the fewest first. *)
Fixpoint many_lazy (cs : charset) (pos : nat) (s : string)
    (caps : captures) (k : cont) : option A :=
  orelse (k pos s caps)
    match s with
    | String c r =>
        if in_set cs c then many_lazy cs (S pos) r caps k else None
    | EmptyString => None
    end.

Fixpoint run (r : regex) (pos : nat) (s : string) (caps : captures)
    (k : cont) : option A :=
  match r with
  | Lit l =>
      if Str.startswith s l
      then k (pos + String.length l) (Str.drop (String.length l) s) caps
      else None
  | Seq r1 r2 =>
      run r1 pos s caps (fun pos' s' caps' => run r2 pos' s' caps' k)
  | Opt r1 => orelse (run r1 pos s caps k) (k pos s caps)
  | Plus greedy cs =>
      match s with
      | String c s' =>
          if in_set cs c
          then (if greedy then many_greedy else many_lazy)
                 cs (S pos) s' caps k
          else None
      | EmptyString => None
      end
  | Group i r1 =>
      run r1 pos s caps
        (fun pos' s' caps' =>
           k pos' s' ((i, String.substring 0 (pos' - pos) s) :: caps'))
  | Bos => if (pos =? 0)%nat then k pos s caps else None
  | Eos =>
      if (s =? "") || (s =? String LF "") then k pos s caps else None
  end.

End Matcher.

(** [pattern.match(s)]: a match at the start of [s]. *)
Definition match_ (r : regex) (s : string) : option captures :=
  run r 0 s [] (fun _ _ caps => Some caps).

(** [m.group(i)]; [None] for a group that took no part in the match. *)
Fixpoint group (m : captures) (i : nat) : option string :=
  match m with
  | [] => None
  | (j, w) :: m' => if (i =? j)%nat then Some w else group m' i
  end.

End Re.

(** ** [github_tools.py] *)

Import Re.

(** [[a-zA-Z0-9_.-]] *)
Definition repo_chars : charset :=
  [Range "a" "z"; Range "A" "Z"; Range "0" "9"; Chr "_"; Chr "."; Chr "-"].

(** [^(?:https?://)?(?:www\.)?github\.com/([a-zA-Z0-9_.-]+)/([a-zA-Z0-9_.-]+?)(?:\.git)?/?$] *)
Definition GITHUB_URL_PATTERN : regex :=
  cat [Bos;
       Opt (cat [Lit "http"; Opt (Lit "s"); Lit "://"]);
       Opt (Lit "www.");
       Lit "github.com/";
       Group 1 (Plus true repo_chars);
       Lit "/";
       Group 2 (Plus false repo_chars);
       Opt (Lit ".git");
       Opt (Lit "/");
       Eos].

(** [^git@github\.com:([a-zA-Z0-9_.-]+)/([a-zA-Z0-9_.-]+?)(?:\.git)?$] *)
Definition GITHUB_SSH_PATTERN : regex :=
  cat [Bos;
       Lit "git@github.com:";
       Group 1 (Plus true repo_chars);
       Lit "/";
       Group 2 (Plus false repo_chars);
       Opt (Lit ".git");
       Eos].

(** [^([a-zA-Z0-9_.-]+)/([a-zA-Z0-9_.-]+)$] *)
Definition OWNER_REPO_PATTERN : regex :=
  cat [Bos;
       Group 1 (Plus true repo_chars);
       Lit "/";
       Group 2 (Plus true repo_chars);
       Eos].

(** [_parse_repo_info(repo_url)]: the pair [(owner, repo_name)]. *)
Definition _parse_repo_info (repo_url : option string)
  : option string * option string :=
  match repo_url with
  | None => (None, None)
  | Some repo_url =>
      let repo_url := Str.strip repo_url in
      match match_ GITHUB_URL_PATTERN repo_url with
      | Some m => (group m 1, group m 2)
      | None =>
          match match_ GITHUB_SSH_PATTERN repo_url with
          | Some m => (group m 1, group m 2)
          | None =>
              match match_ OWNER_REPO_PATTERN repo_url with
              | Some m => (group m 1, group m 2)
              | None => (None, None)
              end
          end
      end
  end.

From Stdlib Require Import ZArith DecimalString.

(** ** More methods of [str] *)

Module StrExt.

(** [c in chars] *)
Fixpoint mem (c : ascii) (chars : string) : bool :=
  match chars with
  | EmptyString => false
  | String d r => Ascii.eqb c d || mem c r
  end.

(** [s.rstrip(chars)] *)
Fixpoint rstrip_chars (chars s : string) : string :=
  match s with
  | EmptyString => EmptyString
  | String c r =>
      match rstrip_chars chars r with
      | EmptyString => if mem c chars then EmptyString else String c EmptyString
      | r' => String c r'
      end
  end.

(** [s[:n]] *)
Definition take (n : nat) (s : string) : string := String.substring 0 n s.

(** [s[:-n]], for a positive [n] *)
Definition drop_last (n : nat) (s : string) : string :=
  take (String.length s - n) s.

(** [sub in s] *)
Fixpoint contains (sub s : string) : bool :=
  Str.startswith s sub
  || match s with
     | EmptyString => false
     | String _ r => contains sub r
     end.

(** The truth value of a string: [bool(s)]. *)
Definition truthy (s : string) : bool := negb (s =? "").

(** [a or b] on strings *)
Definition or_else (a b : string) : string := if truthy a then a else b.

End StrExt.

(** ** [git_tools.py]: the pure parts of the tools *)

(** The directory that [GitCloneTool.apply] takes from the URL when no
    [target_dir] is given (the lines under [if target_dir is None]). *)
Definition derived_repo_name (repo_url : string) : string :=
  let repo_name :=
    last (Str.split "/" (StrExt.rstrip_chars "/" repo_url)) "" in
  if Str.endswith repo_name ".git" then StrExt.drop_last 4 repo_name
  else repo_name.

(** The loop of [GitStatusTool.apply] over the lines of [git status
    --short]: the pairs of a status and a file. *)
Definition status_entry (files : list (string * string)) (line : string)
  : list (string * string) :=
  if StrExt.truthy line
  then (files ++ [(Str.strip (StrExt.take 2 line), Str.drop 3 line)])%list
  else files.

Definition status_files (stdout : string) : list (string * string) :=
  fold_left status_entry (Str.split LF (Str.strip stdout)) [].

(** ** [git_tools.py]: the tools and the world they act on *)

(** [str(n)] for an [int] *)
Definition str_of_int (n : Z) : string := NilZero.string_of_int (Z.to_int n).

(** The values that [json.dumps] receives; a [dict] keeps its keys in the
    order of the source. *)
Unset Elimination Schemes.

Inductive json : Type :=
| JNull
| JBool (b : bool)
| JInt (n : Z)
| JStr (s : string)
| JList (items : list json)
| JObj (fields : list (string * json)).

Set Elimination Schemes.

(** What [subprocess.run(cmd, cwd=..., capture_output=True, text=True,
    timeout=300)] does: it completes with the two outputs and the return
    code, times out, or raises another exception [e], of which [str(e)] is
    kept. *)
Inductive run_outcome : Type :=
| Completed (out err : string) (returncode : Z)
| TimeoutExpired
| RunError (msg : string).

(** What a tool does to the world, in order. *)
Inductive event : Type :=
| Makedirs (path : string)
| Run (cmd : list string) (cwd : string).

(** An exception that leaves a tool: one of the library functions modelled
    above, or an [OSError] of the file system. *)
Inductive failure : Type :=
| Lib (e : exn)
| OSError (msg : string).

Inductive result (A : Type) : Type :=
| Ok (a : A)
| Err (e : failure).

Arguments Ok {A} a.
Arguments Err {A} e.

(** The world of a call.  The file system and the git binary answer
    according to what the call has done so far. *)
Record world : Type := {
  getcwd : string;
  environ_WORKSPACE_DIR : option string;
  path_exists : list event -> string -> bool;
  path_isdir : list event -> string -> bool;
  listdir : list event -> string -> result (list string);
  makedirs : list event -> string -> option string;
  subprocess_run : list event -> list string -> string -> run_outcome;
  dumps : json -> string
}.

(** A computation of a tool: from the events so far to a value and the
    events then. *)
Definition io (A : Type) : Type := list event -> A * list event.

(** [os.environ.get("WORKSPACE_DIR", "/workspace")] *)
Definition DEFAULT_WORKSPACE_DIR (w : world) : string :=
  match environ_WORKSPACE_DIR w with
  | Some dir => dir
  | None => "/workspace"
  end.

(** The dictionary that [_run_git_command] returns. *)
Record git_result : Type := {
  stdout : string;
  stderr : string;
  return_code : Z;
  success : bool
}.

(** [cwd or DEFAULT_WORKSPACE_DIR] *)
Definition cwd_or_default (w : world) (cwd : option string) : string :=
  match cwd with
  | Some dir => StrExt.or_else dir (DEFAULT_WORKSPACE_DIR w)
  | None => DEFAULT_WORKSPACE_DIR w
  end.

(** [_run_git_command(args, cwd)], with [capture_output] left to its
    default as every caller does. *)
Definition _run_git_command (w : world) (args : list string)
    (cwd : option string) : io git_result :=
  fun h =>
    let cmd := "git" :: args in
    let dir := cwd_or_default w cwd in
    let res :=
      match subprocess_run w h cmd dir with
      | Completed out err returncode =>
          {| stdout := out; stderr := err; return_code := returncode;
             success := Z.eqb returncode 0 |}
      | TimeoutExpired =>
          {| stdout := ""; stderr := "Command timed out after 300 seconds";
             return_code := (-1)%Z; success := false |}
      | RunError msg =>
          {| stdout := ""; stderr := msg;
             return_code := (-1)%Z; success := false |}
      end in
    (res, (h ++ [Run cmd dir])%list).

(** The truth value of an optional string: [bool(x)]. *)
Definition truthy_opt (x : option string) : bool :=
  match x with
  | Some s => StrExt.truthy s
  | None => false
  end.

Definition failed (w : world) (fields : list (string * json)) : string :=
  dumps w (JObj (("success", JBool false) :: fields)).

(** [GitCloneTool.apply(repo_url, branch, target_dir, depth)] *)
Definition GitCloneTool_apply (w : world) (repo_url branch : string)
    (target_dir : option string) (depth : option Z) : io (result string) :=
  fun h =>
    let target_dir :=
      match target_dir with
      | None => derived_repo_name repo_url
      | Some dir => dir
      end in
    match _sanitize_path (getcwd w) target_dir (DEFAULT_WORKSPACE_DIR w) with
    | Raise e => (Err (Lib e), h)
    | Return (full_path, error) =>
        if truthy_opt error then
          (Ok (failed w [("error",
                          match error with Some e => JStr e | None => JNull end)]),
           h)
        else if path_exists w h full_path then
          (Ok (failed w
                 [("error", JStr ("Directory already exists: " ++ full_path));
                  ("suggestion",
                   JStr "Use a different target_dir or delete the existing directory")]),
           h)
        else
          let h1 := (h ++ [Makedirs (DEFAULT_WORKSPACE_DIR w)])%list in
          match makedirs w h (DEFAULT_WORKSPACE_DIR w) with
          | Some msg => (Err (OSError msg), h1)
          | None =>
              let clone_args :=
                (["clone"; "--branch"; branch]
                   ++ match depth with
                      | Some d => ["--depth"; str_of_int d]
                      | None => []
                      end
                   ++ [repo_url; full_path])%list in
              let (res, h2) :=
                _run_git_command w clone_args
                  (Some (DEFAULT_WORKSPACE_DIR w)) h1 in
              if success res then
                let (_, h3) :=
                  _run_git_command w
                    ["config"; "user.email"; "coding-agent@archestra.ai"]
                    (Some full_path) h2 in
                let (_, h4) :=
                  _run_git_command w
                    ["config"; "user.name"; "Archestra Coding Agent"]
                    (Some full_path) h3 in
                (Ok (dumps w
                       (JObj [("success", JBool true);
                              ("path", JStr full_path);
                              ("branch", JStr branch);
                              ("message",
                               JStr ("Successfully cloned " ++ repo_url
                                       ++ " to " ++ full_path))])),
                 h4)
              else
                (Ok (failed w
                       [("error",
                         JStr (StrExt.or_else (stderr res) "Clone failed"));
                        ("stdout", JStr (stdout res))]),
                 h2)
          end
    end.

(** The loop of [_get_default_repo_path] over the entries of the
    workspace. *)
Fixpoint first_repo (w : world) (h : list event) (entries : list string)
  : option string :=
  match entries with
  | [] => None
  | entry :: rest =>
      let entry_path := posixpath.join (DEFAULT_WORKSPACE_DIR w) entry in
      if path_isdir w h entry_path then
        let git_dir := posixpath.join entry_path ".git" in
        if path_exists w h git_dir then Some entry_path
        else first_repo w h rest
      else first_repo w h rest
  end.

(** [_get_default_repo_path()] *)
Definition _get_default_repo_path (w : world) (h : list event)
  : result (option string) :=
  if negb (path_exists w h (DEFAULT_WORKSPACE_DIR w)) then Ok None
  else
    match listdir w h (DEFAULT_WORKSPACE_DIR w) with
    | Err e => Err e
    | Ok entries => Ok (first_repo w h entries)
    end.

(** [repo_path or _get_default_repo_path()] *)
Definition repo_path_or_default (w : world) (repo_path : option string)
    (h : list event) : result (option string) :=
  if truthy_opt repo_path then Ok repo_path else _get_default_repo_path w h.

Definition no_repository (w : world) : string :=
  failed w [("error", JStr "No repository found. Clone a repository first.")].

(** The tools begin alike: they find the repository, or answer that there
    is none; an exception of the file system goes through. *)
Definition with_repo (w : world) (repo_path : option string)
    (body : string -> io (result string)) : io (result string) :=
  fun h =>
    match repo_path_or_default w repo_path h with
    | Err e => (Err e, h)
    | Ok None => (Ok (no_repository w), h)
    | Ok (Some path) => body path h
    end.

(** [GitStatusTool.apply(repo_path)] *)
Definition GitStatusTool_apply (w : world) (repo_path : option string)
  : io (result string) :=
  with_repo w repo_path (fun path h =>
    let (status_result, h1) :=
      _run_git_command w ["status"; "--short"] (Some path) h in
    let (branch_result, h2) :=
      _run_git_command w ["rev-parse"; "--abbrev-ref"; "HEAD"] (Some path) h1 in
    let (remote_result, h3) :=
      _run_git_command w ["status"; "--branch"; "--porcelain=v2"]
        (Some path) h2 in
    if success status_result then
      let files := status_files (stdout status_result) in
      (Ok (dumps w
             (JObj [("success", JBool true);
                    ("path", JStr path);
                    ("branch",
                     JStr (if success branch_result
                           then Str.strip (stdout branch_result)
                           else "unknown"));
                    ("files",
                     JList (map (fun f =>
                                   JObj [("status", JStr (fst f));
                                         ("file", JStr (snd f))]) files));
                    ("is_clean", JBool (Nat.eqb (List.length files) 0));
                    ("raw_status", JStr (stdout status_result))])),
       h3)
    else (Ok (failed w [("error", JStr (stderr status_result))]), h3)).

(** [GitDiffTool.apply(repo_path, staged, file_path)] *)
Definition GitDiffTool_apply (w : world) (repo_path : option string)
    (staged : bool) (file_path : option string) : io (result string) :=
  with_repo w repo_path (fun path h =>
    let diff_args :=
      (["diff"]
         ++ (if staged then ["--staged"] else [])
         ++ (if truthy_opt file_path
             then ["--"; match file_path with Some f => f | None => "" end]
             else []))%list in
    let (res, h1) := _run_git_command w diff_args (Some path) h in
    if success res then
      (Ok (dumps w
             (JObj [("success", JBool true);
                    ("path", JStr path);
                    ("staged", JBool staged);
                    ("diff", JStr (stdout res));
                    ("has_changes",
                     JBool (Nat.ltb 0 (String.length (Str.strip (stdout res)))))])),
       h1)
    else (Ok (failed w [("error", JStr (stderr res))]), h1)).

(** The loop [for file in files] of [GitCommitTool.apply]: the file and the
    result of the first [git add] that fails, if one does. *)
Fixpoint stage_files (w : world) (path : string) (files : list string)
  : io (option (string * git_result)) :=
  fun h =>
    match files with
    | [] => (None, h)
    | file :: rest =>
        let (add_result, h1) :=
          _run_git_command w ["add"; file] (Some path) h in
        if negb (success add_result) then (Some (file, add_result), h1)
        else stage_files w path rest h1
    end.

(** The end of [GitCommitTool.apply], once the changes are staged. *)
Definition commit_staged (w : world) (message path : string)
  : io (result string) :=
  fun h =>
    let (commit_result, h1) :=
      _run_git_command w ["commit"; "-m"; message] (Some path) h in
    if success commit_result then
      let (hash_result, h2) :=
        _run_git_command w ["rev-parse"; "HEAD"] (Some path) h1 in
      let commit_hash :=
        if success hash_result then Str.strip (stdout hash_result)
        else "unknown" in
      (Ok (dumps w
             (JObj [("success", JBool true);
                    ("path", JStr path);
                    ("message", JStr message);
                    ("commit_hash", JStr commit_hash);
                    ("output", JStr (stdout commit_result))])),
       h2)
    else if StrExt.contains "nothing to commit" (stdout commit_result) then
      (Ok (failed w
             [("error", JStr "Nothing to commit - working tree is clean")]),
       h1)
    else
      (Ok (failed w
             [("error",
               JStr (StrExt.or_else (stderr commit_result)
                                    (stdout commit_result)))]),
       h1).

(** The truth value of an optional list: [bool(files)]. *)
Definition nonempty_opt (files : option (list string)) : bool :=
  match files with
  | Some (_ :: _) => true
  | _ => false
  end.

(** [GitCommitTool.apply(message, repo_path, files, all_changes)] *)
Definition GitCommitTool_apply (w : world) (message : string)
    (repo_path : option string) (files : option (list string))
    (all_changes : bool) : io (result string) :=
  with_repo w repo_path (fun path h =>
    if nonempty_opt files then
      match stage_files w path
              (match files with Some fs => fs | None => [] end) h with
      | (Some (file, add_result), h1) =>
          (Ok (failed w
                 [("error",
                   JStr ("Failed to stage " ++ file ++ ": "
                           ++ stderr add_result))]),
           h1)
      | (None, h1) => commit_staged w message path h1
      end
    else if all_changes then
      let (add_result, h1) :=
        _run_git_command w ["add"; "-A"] (Some path) h in
      if negb (success add_result) then
        (Ok (failed w
               [("error",
                 JStr ("Failed to stage changes: " ++ stderr add_result))]),
         h1)
      else commit_staged w message path h1
    else commit_staged w message path h).

(** [GitPushTool.apply(repo_path, remote, branch, set_upstream, force)] *)
Definition GitPushTool_apply (w : world) (repo_path : option string)
    (remote : string) (branch : option string) (set_upstream force : bool)
  : io (result string) :=
  with_repo w repo_path (fun path h =>
    let push (branch : string) (h : list event) :=
      let push_args :=
        (["push"]
           ++ (if set_upstream then ["-u"] else [])
           ++ (if force then ["--force"] else [])
           ++ [remote; branch])%list in
      let (res, h1) := _run_git_command w push_args (Some path) h in
      if success res then
        (Ok (dumps w
               (JObj [("success", JBool true);
                      ("path", JStr path);
                      ("remote", JStr remote);
                      ("branch", JStr branch);
                      ("message",
                       JStr ("Successfully pushed to " ++ remote ++ "/"
                               ++ branch));
                      ("output", JStr (stderr res))])),
         h1)
      else
        (Ok (failed w
               [("error", JStr (StrExt.or_else (stderr res) (stdout res)))]),
         h1) in
    match branch with
    | Some b => push b h
    | None =>
        let (branch_result, h1) :=
          _run_git_command w ["rev-parse"; "--abbrev-ref"; "HEAD"]
            (Some path) h in
        if success branch_result
        then push (Str.strip (stdout branch_result)) h1
        else
          (Ok (failed w
                 [("error", JStr "Could not determine current branch")]),
           h1)
    end).

(** [GitCheckoutBranchTool.apply(branch_name, repo_path, create,
    start_point)] *)
Definition GitCheckoutBranchTool_apply (w : world) (branch_name : string)
    (repo_path : option string) (create : bool)
    (start_point : option string) : io (result string) :=
  with_repo w repo_path (fun path h =>
    let (check_result, h1) :=
      _run_git_command w
        ["rev-parse"; "--verify"; "refs/heads/" ++ branch_name]
        (Some path) h in
    let branch_exists := success check_result in
    let finish (res : git_result) (action : string) (h : list event) :=
      if success res then
        (Ok (dumps w
               (JObj [("success", JBool true);
                      ("path", JStr path);
                      ("branch", JStr branch_name);
                      ("action", JStr action);
                      ("message",
                       JStr ("Successfully " ++ action ++ " branch '"
                               ++ branch_name ++ "'"))])),
         h)
      else
        (Ok (failed w
               [("error", JStr (StrExt.or_else (stderr res) (stdout res)))]),
         h) in
    if branch_exists then
      let (res, h2) :=
        _run_git_command w ["checkout"; branch_name] (Some path) h1 in
      finish res "switched to" h2
    else if create then
      let checkout_args :=
        (["checkout"; "-b"; branch_name]
           ++ (if truthy_opt start_point
               then [match start_point with Some s => s | None => "" end]
               else []))%list in
      let (res, h2) := _run_git_command w checkout_args (Some path) h1 in
      finish res "created and switched to" h2
    else
      (Ok (failed w
             [("error",
               JStr ("Branch '" ++ branch_name
                       ++ "' does not exist. Set create=True to create it."))]),
       h1)).

(** ** The GitHub tools

    The GitHub API is a second part of the world.  A request is recorded as
    an event; what it answers may depend on the requests made before. *)

(** [e.data] of a [GithubException]: [None], a dictionary, with the value
    under ["message"] as an f-string prints it if the key is there, or
    another value, with what [str] makes of it and its truth value. *)
Inductive exception_data : Type :=
| DataNone
| DataDict (message : option string)
| DataOther (text : string) (truth : bool).

Record GithubException : Type := {
  exc_data : exception_data;
  exc_status : Z;
  exc_str : string
}.

(** The outcome of a request: a value, a [GithubException], or another
    exception, with what [str] makes of it. *)
Inductive api (A : Type) : Type :=
| Returned (a : A)
| RaisedGithub (e : GithubException)
| RaisedOther (msg : string).

Arguments Returned {A} a.
Arguments RaisedGithub {A} e.
Arguments RaisedOther {A} msg.

(** The attributes of a pull request that the tool reads. *)
Record pull_request : Type := {
  pr_number : Z;
  pr_html_url : string;
  pr_title : string;
  pr_state : string
}.

Inductive request : Type :=
| GetRepo (token full_name : string)
| CreatePull (token full_name title body head base : string) (draft : bool).

Record github : Type := {
  GITHUB_AVAILABLE : bool;
  environ_GITHUB_TOKEN : option string;
  get_repo : list request -> string -> string -> api unit;
  create_pull : list request -> string -> string -> string -> string
                -> string -> string -> bool -> api pull_request
}.

(** [_get_github_client()]: the client is known by its token. *)
Definition _get_github_client (g : github) : option string :=
  if negb (GITHUB_AVAILABLE g) then None
  else
    let token := environ_GITHUB_TOKEN g in
    if negb (truthy_opt token) then None else token.

(** [_get_github_error_message(e)] *)
Definition _get_github_error_message (e : GithubException) : string :=
  match exc_data e with
  | DataNone => exc_str e
  | DataDict message =>
      match message with
      | Some m => m
      | None => exc_str e
      end
  | DataOther text truth => if truth then text else exc_str e
  end.

(** [GithubCreatePrTool.apply(title, body, head, base, repo, draft)] *)
Definition GithubCreatePrTool_apply (w : world) (g : github)
    (title body head base : string) (repo : option string) (draft : bool)
  : list request -> string * list request :=
  fun h =>
    if negb (GITHUB_AVAILABLE g) then
      (failed w
         [("error",
           JStr "PyGithub is not installed. Please install it with: pip install PyGithub")],
       h)
    else
      match _get_github_client g with
      | None =>
          (failed w
             [("error",
               JStr "GITHUB_TOKEN environment variable not set. Please configure it.")],
           h)
      | Some client =>
          match _parse_repo_info repo with
          | (Some owner, Some repo_name) =>
              let full_name := owner ++ "/" ++ repo_name in
              let github_error (e : GithubException) :=
                failed w
                  [("error",
                    JStr ("GitHub API error: "
                            ++ _get_github_error_message e));
                   ("status", JInt (exc_status e))] in
              let h1 := (h ++ [GetRepo client full_name])%list in
              match get_repo g h client full_name with
              | RaisedGithub e => (github_error e, h1)
              | RaisedOther msg => (failed w [("error", JStr msg)], h1)
              | Returned _ =>
                  let h2 :=
                    (h1 ++ [CreatePull client full_name title body head base
                              draft])%list in
                  match create_pull g h1 client full_name title body head
                          base draft with
                  | RaisedGithub e => (github_error e, h2)
                  | RaisedOther msg => (failed w [("error", JStr msg)], h2)
                  | Returned pr =>
                      (dumps w
                         (JObj [("success", JBool true);
                                ("pr_number", JInt (pr_number pr));
                                ("pr_url", JStr (pr_html_url pr));
                                ("title", JStr (pr_title pr));
                                ("state", JStr (pr_state pr));
                                ("head", JStr head);
                                ("base", JStr base);
                                ("message",
                                 JStr ("Successfully created PR #"
                                         ++ str_of_int (pr_number pr) ++ ": "
                                         ++ pr_html_url pr))]),
                       h2)
                  end
              end
          | _ =>
              (failed w
                 [("error",
                   JStr "Could not parse repository. Provide repo in 'owner/repo' format.")],
               h)
          end
      end.

(** ** [entrypoint.py]: the arguments of the server *)

Definition default_args : list string :=
  ["--context"; "agent";
   "--mode"; "interactive";
   "--mode"; "editing";
   "--mode"; "no-onboarding"].

(** The loop over the items of the workspace: what it adds to
    [default_args]. *)
Fixpoint project_args (w : world) (h : list event) (items : list string)
  : list string :=
  match items with
  | [] => []
  | item :: rest =>
      let item_path := posixpath.join (DEFAULT_WORKSPACE_DIR w) item in
      if path_isdir w h item_path
         && path_isdir w h (posixpath.join item_path ".git")
      then ["--project"; item_path]
      else project_args w h rest
  end.

(** [final_args], from [sys.argv]. *)
Definition final_args (w : world) (h : list event) (argv : list string)
  : result (list string) :=
  let args := if Nat.ltb 1 (List.length argv) then tl argv else [] in
  let workspace_dir := DEFAULT_WORKSPACE_DIR w in
  if path_isdir w h workspace_dir then
    match listdir w h workspace_dir with
    | Err e => Err e
    | Ok items => Ok (default_args ++ project_args w h items ++ args)%list
    end
  else Ok (default_args ++ args)%list.

(** ** The vocabulary of the properties *)

(** [sem r pos w rest caps caps']: at position [pos], before [rest], the
    pattern [r] can match the characters [w], turning the groups [caps]
    into [caps']. *)
Fixpoint sem (r : regex) (pos : nat) (w rest : string)
    (caps caps' : captures) : Prop :=
  match r with
  | Lit l => w = l /\ caps' = caps
  | Seq r1 r2 =>
      exists w1 w2 c1,
        w = w1 ++ w2
        /\ sem r1 pos w1 (w2 ++ rest) caps c1
        /\ sem r2 (pos + String.length w1) w2 rest c1 caps'
  | Opt r1 => sem r1 pos w rest caps caps' \/ (w = "" /\ caps' = caps)
  | Plus _ cs =>
      w <> "" /\ Str.forallb (in_set cs) w = true /\ caps' = caps
  | Group i r1 => exists c1, sem r1 pos w rest caps c1 /\ caps' = (i, w) :: c1
  | Bos => pos = 0 /\ w = "" /\ caps' = caps
  | Eos => w = "" /\ (rest = "" \/ rest = String LF "") /\ caps' = caps
  end.

(** A token of the grammar: one or more characters of [[a-zA-Z0-9_.-]]. *)
Definition token (w : string) : Prop :=
  w <> "" /\ Str.forallb (in_set repo_chars) w = true.

(** The end of the subject as [$] sees it: nothing, or one last newline. *)
Definition at_end (e : string) : Prop := e = "" \/ e = String LF "".

(** The subjects of the three patterns, for an owner [o] and a name [n]. *)
Definition url_shape (s o n : string) : Prop :=
  exists scheme www git slash e,
    s = scheme ++ www ++ "github.com/" ++ o ++ "/" ++ n ++ git ++ slash ++ e
    /\ In scheme [""; "http://"; "https://"]
    /\ In www [""; "www."]
    /\ In git [""; ".git"]
    /\ In slash [""; "/"]
    /\ at_end e.

Definition ssh_shape (s o n : string) : Prop :=
  exists git e,
    s = "git@github.com:" ++ o ++ "/" ++ n ++ git ++ e
    /\ In git [""; ".git"]
    /\ at_end e.

Definition bare_shape (s o n : string) : Prop :=
  exists e, s = o ++ "/" ++ n ++ e /\ at_end e.

(** The number of occurrences of a character. *)
Fixpoint count (c : ascii) (s : string) : nat :=
  match s with
  | EmptyString => 0
  | String d r => (if Ascii.eqb d c then 1 else 0) + count c r
  end.

(** [pattern.match(s)] is not [None]. *)
Definition matches (r : regex) (s : string) : bool :=
  match match_ r s with Some _ => true | None => false end.

(** The patterns that match a subject, among the three of the parser. *)
Definition matching_patterns (s : string) : list regex :=
  filter (fun r => matches r s)
         [GITHUB_URL_PATTERN; GITHUB_SSH_PATTERN; OWNER_REPO_PATTERN].

(** Where a run of characters of the set cannot go on. *)
Definition stops (cs : charset) (s : string) : Prop :=
  match s with
  | EmptyString => True
  | String c _ => in_set cs c = false
  end.

(** What may follow the name in an HTTPS and in an SSH reference. *)
Definition url_tail : regex := cat [Opt (Lit ".git"); Opt (Lit "/"); Eos].

Definition ssh_tail : regex := cat [Opt (Lit ".git"); Eos].

(** The last continuation of [match_]: the match is complete. *)
Definition done : cont captures := fun _ _ caps => Some caps.

(** [a] is a prefix of [b] and shorter. *)
Fixpoint proper_prefix (a b : list string) : bool :=
  match a, b with
  | [], _ :: _ => true
  | x :: a', y :: b' => (x =? y) && proper_prefix a' b'
  | _, _ => false
  end.

(** A component that [normpath] keeps under a root: not empty, neither
    [.] nor [..], and without a separator. *)
Definition plain (c : string) : Prop :=
  posixpath.kept c = true /\ c <> ".." /\ count "/" c = 0.

(** A name that is not some token followed by [.git]. *)
Definition no_git_suffix (n : string) : Prop :=
  forall p, p <> "" -> n <> p ++ ".git".

(** A component that [commonpath] keeps: not empty, not [.], and without a
    separator. *)
Definition segment (c : string) : Prop :=
  posixpath.kept c = true /\ count "/" c = 0.

(** A line of [git status --short]: two characters of status, a blank and
    the file. *)
Definition status_line (entry : string * string) : string :=
  fst entry ++ " " ++ snd entry.

(** The output of [git status --short] for a list of entries: every line
    ends with a newline. *)
Definition status_output (entries : list (string * string)) : string :=
  String.concat (String LF "") (map status_line entries) ++ String LF "".

(** A status of two characters and a file that is not empty, both on one
    line. *)
Definition status_ok (entry : string * string) : Prop :=
  String.length (fst entry) = 2 /\ count LF (fst entry) = 0
  /\ snd entry <> "" /\ count LF (snd entry) = 0.

(** What a line of the output gives when it is not empty. *)
Definition status_of_line (line : string) : list (string * string) :=
  if StrExt.truthy line
  then [(Str.strip (StrExt.take 2 line), Str.drop 3 line)]
  else [].

Definition starts_nonspace (s : string) : Prop :=
  exists c r, s = String c r /\ Str.isspace c = false.

Definition ends_nonspace (s : string) : Prop :=
  exists a c, s = a ++ String c "" /\ Str.isspace c = false.

(** A path inside the canonical form of a base directory. *)
Definition inside (base path : string) : Prop :=
  path = base \/ Str.startswith path (base ++ posixpath.sep) = true.

(** The commands of [evs], run in this order after the events [h], are git
    commands that complete with the return code 0. *)
Fixpoint all_succeed (w : world) (h : list event) (evs : list event) : Prop :=
  match evs with
  | [] => True
  | Run cmd dir :: rest =>
      (exists out err, subprocess_run w h cmd dir = Completed out err 0%Z)
      /\ all_succeed w (h ++ [Run cmd dir]) rest
  | Makedirs _ :: _ => False
  end.

(** The command [git add file] in the repository [path]. *)
Definition git_add (w : world) (path file : string) : event :=
  Run ["git"; "add"; file] (cwd_or_default w (Some path)).

(** An entry of the workspace that is a directory with a [.git] in it. *)
Definition is_repo (w : world) (h : list event) (entry : string) : bool :=
  let entry_path := posixpath.join (DEFAULT_WORKSPACE_DIR w) entry in
  path_isdir w h entry_path
  && path_exists w h (posixpath.join entry_path ".git").

(** A git command run in a given directory. *)
Definition git_in (dir : string) (ev : event) : Prop :=
  exists args, ev = Run ("git" :: args) dir.

(** A world for the examples: a workspace [/workspace] with the entries
    [notes] and [repo], of which [repo] is a repository; git completes with
    the return code 1 on [add bad.txt] and 0 otherwise. *)
Definition example_world : world :=
  {| getcwd := "/srv";
     environ_WORKSPACE_DIR := None;
     path_exists := fun _ p =>
       (p =? "/workspace") || (p =? "/workspace/repo")
       || (p =? "/workspace/repo/.git") || (p =? "/workspace/notes");
     path_isdir := fun _ p =>
       (p =? "/workspace") || (p =? "/workspace/repo")
       || (p =? "/workspace/repo/.git") || (p =? "/workspace/notes");
     listdir := fun _ p =>
       if p =? "/workspace" then Ok ["notes"; "repo"]
       else Err (OSError "No such directory");
     makedirs := fun _ _ => None;
     subprocess_run := fun _ cmd _ =>
       match cmd with
       | ["git"; "add"; "bad.txt"] => Completed "" "pathspec did not match" 1%Z
       | _ => Completed "ok" "" 0%Z
       end;
     dumps := fun _ => "{}" |}.

(** The tools that work in a repository, as functions of [repo_path]. *)
Inductive repo_tool (w : world)
  : (option string -> io (result string)) -> Prop :=
| tool_status : repo_tool w (GitStatusTool_apply w)
| tool_diff (staged : bool) (file_path : option string) :
    repo_tool w (fun repo_path =>
                   GitDiffTool_apply w repo_path staged file_path)
| tool_commit (message : string) (files : option (list string))
    (all_changes : bool) :
    repo_tool w (fun repo_path =>
                   GitCommitTool_apply w message repo_path files all_changes)
| tool_push (remote : string) (branch : option string)
    (set_upstream force : bool) :
    repo_tool w (fun repo_path =>
                   GitPushTool_apply w repo_path remote branch set_upstream
                     force)
| tool_checkout (branch_name : string) (create : bool)
    (start_point : option string) :
    repo_tool w (fun repo_path =>
                   GitCheckoutBranchTool_apply w branch_name repo_path create
                     start_point).

(** A GitHub for the examples: the library is there, a token is set, and
    every request is answered. *)
Definition example_github : github :=
  {| GITHUB_AVAILABLE := true;
     environ_GITHUB_TOKEN := Some "t0ken";
     get_repo := fun _ _ _ => Returned tt;
     create_pull := fun _ _ _ title _ _ _ _ =>
       Returned {| pr_number := 7%Z;
                   pr_html_url := "https://github.com/o/r/pull/7";
                   pr_title := title;
                   pr_state := "open" |} |}.

(** ** Facts about strings *)

Section StrFacts.

Lemma app_assoc (a b c : string) : (a ++ b) ++ c = a ++ b ++ c.
Proof. induction a as [|x a IH]; simpl; [reflexivity | now rewrite IH]. Qed.

Lemma app_nil_r (a : string) : a ++ "" = a.
Proof. induction a as [|x a IH]; simpl; [reflexivity | now rewrite IH]. Qed.

Lemma length_app (a b : string) :
  String.length (a ++ b) = String.length a + String.length b.
Proof. induction a as [|x a IH]; simpl; [reflexivity | now rewrite IH]. Qed.

Lemma app_inv_head (a b c : string) : a ++ b = a ++ c -> b = c.
Proof.
  induction a as [|x a IH]; simpl; intro H; [exact H|].
  injection H as H. now apply IH.
Qed.

Lemma startswith_app (p r : string) : Str.startswith (p ++ r) p = true.
Proof.
  unfold Str.startswith. induction p as [|x p IH]; simpl.
  - now destruct r.
  - destruct (ascii_dec x x) as [_|N]; [exact IH | now elim N].
Qed.

Lemma startswith_inv (s p : string) :
  Str.startswith s p = true -> s = p ++ Str.drop (String.length p) s.
Proof.
  unfold Str.startswith. revert s.
  induction p as [|x p IH]; intros s H; simpl in *.
  - reflexivity.
  - destruct s as [|y s]; simpl in H; [discriminate|].
    destruct (ascii_dec x y) as [->|N]; [|discriminate].
    simpl. f_equal. now apply IH.
Qed.

Lemma drop_app (p r : string) : Str.drop (String.length p) (p ++ r) = r.
Proof. induction p as [|x p IH]; simpl; [reflexivity | exact IH]. Qed.

Lemma forallb_app (f : ascii -> bool) (a b : string) :
  Str.forallb f (a ++ b) = Str.forallb f a && Str.forallb f b.
Proof.
  induction a as [|x a IH]; simpl; [reflexivity|].
  now rewrite IH, andb_assoc.
Qed.

Lemma substring_app (w r : string) :
  String.substring 0 (String.length w) (w ++ r) = w.
Proof.
  induction w as [|x w IH]; simpl.
  - now destruct r.
  - now rewrite IH.
Qed.

End StrFacts.

(** ** What a pattern matches *)

Section Soundness.

Variable A : Type.
Implicit Types (k : cont A) (x : A).

Lemma orelse_inv (a b : option A) x :
  orelse a b = Some x -> a = Some x \/ b = Some x.
Proof. destruct a; simpl; auto. Qed.

Lemma many_greedy_sound cs s : forall pos caps k x,
  many_greedy cs pos s caps k = Some x ->
  exists w rest,
    s = w ++ rest /\ Str.forallb (in_set cs) w = true
    /\ k (pos + String.length w) rest caps = Some x.
Proof.
  induction s as [|c s IH]; intros pos caps k x H; simpl in H.
  - exists "", "". simpl. now rewrite Nat.add_0_r.
  - destruct (in_set cs c) eqn:Hc.
    + apply orelse_inv in H. destruct H as [H|H].
      * apply IH in H. destruct H as (w & rest & -> & Hw & Hk).
        exists (String c w), rest. simpl. rewrite Hc, Hw.
        now rewrite Nat.add_succ_r.
      * exists "", (String c s). simpl. now rewrite Nat.add_0_r.
    + exists "", (String c s). simpl. now rewrite Nat.add_0_r.
Qed.

Lemma many_lazy_sound cs s : forall pos caps k x,
  many_lazy cs pos s caps k = Some x ->
  exists w rest,
    s = w ++ rest /\ Str.forallb (in_set cs) w = true
    /\ k (pos + String.length w) rest caps = Some x.
Proof.
  induction s as [|c s IH]; intros pos caps k x H; simpl in H;
    apply orelse_inv in H; destruct H as [H|H];
    try (exists "", ""; simpl; now rewrite Nat.add_0_r);
    try discriminate.
  - exists "", (String c s). simpl. now rewrite Nat.add_0_r.
  - destruct (in_set cs c) eqn:Hc; [|discriminate].
    apply IH in H. destruct H as (w & rest & -> & Hw & Hk).
    exists (String c w), rest. simpl. rewrite Hc, Hw.
    now rewrite Nat.add_succ_r.
Qed.

(** Whatever the matcher returns, it returns through its continuation,
    after characters that the pattern can match. *)
Lemma run_sound r : forall pos s caps k x,
  run r pos s caps k = Some x ->
  exists w rest caps',
    s = w ++ rest /\ sem r pos w rest caps caps'
    /\ k (pos + String.length w) rest caps' = Some x.
Proof.
  induction r as [l | r1 IH1 r2 IH2 | r1 IH1 | g cs | i r1 IH1 | | ];
    intros pos s caps k x H; simpl in H.
  - destruct (Str.startswith s l) eqn:Hp; [|discriminate].
    apply startswith_inv in Hp.
    exists l, (Str.drop (String.length l) s), caps. simpl. auto.
  - apply IH1 in H. destruct H as (w1 & rest1 & c1 & -> & S1 & H).
    apply IH2 in H. destruct H as (w2 & rest & c2 & -> & S2 & H).
    exists (w1 ++ w2), rest, c2. split; [now rewrite app_assoc|].
    split.
    + simpl. exists w1, w2, c1. auto.
    + now rewrite length_app, Nat.add_assoc.
  - apply orelse_inv in H. destruct H as [H|H].
    + apply IH1 in H. destruct H as (w & rest & c1 & -> & S1 & H).
      exists w, rest, c1. simpl. auto.
    + exists "", s, caps. simpl. rewrite Nat.add_0_r. auto.
  - destruct s as [|c s]; [discriminate|].
    destruct (in_set cs c) eqn:Hc; [|discriminate].
    assert (exists w rest, s = w ++ rest
              /\ Str.forallb (in_set cs) w = true
              /\ k (S pos + String.length w) rest caps = Some x)
      as (w & rest & -> & Hw & Hk)
      by (destruct g; [eapply many_greedy_sound | eapply many_lazy_sound];
          exact H).
    exists (String c w), rest, caps. simpl. rewrite Hc, Hw.
    rewrite Nat.add_succ_r. repeat split; auto. discriminate.
  - apply IH1 in H. destruct H as (w & rest & c1 & -> & S1 & H).
    exists w, rest, ((i, w) :: c1). simpl. split; [reflexivity|].
    split; [exists c1; auto|].
    replace (pos + String.length w - pos) with (String.length w) in H by lia.
    now rewrite substring_app in H.
  - destruct (Nat.eqb_spec pos 0) as [->|]; [|discriminate].
    exists "", s, caps. simpl. auto.
  - destruct ((s =? "") || (s =? String LF "")) eqn:He; [|discriminate].
    exists "", s, caps. simpl. rewrite Nat.add_0_r.
    apply orb_true_iff in He. rewrite !String.eqb_eq in He. auto.
Qed.

End Soundness.

(** A successful [match_] exhibits a word of the pattern at the start of
    the subject. *)
Lemma match_sound (r : regex) (s : string) (m : captures) :
  match_ r s = Some m ->
  exists w rest, s = w ++ rest /\ sem r 0 w rest [] m.
Proof.
  unfold match_. intro H. apply run_sound in H.
  destruct H as (w & rest & caps' & -> & S & H).
  injection H as ->. eauto.
Qed.

(** ** The three shapes of a repository reference *)

Ltac break :=
  repeat match goal with
         | H : exists _, _ |- _ => destruct H
         | H : _ /\ _ |- _ => destruct H
         end.

Ltac break_all :=
  repeat (break;
          match goal with
          | H : _ \/ _ |- _ => destruct H
          end); break.

Ltac norm_app :=
  repeat (progress (rewrite ?app_assoc, ?app_nil_r; cbn [String.append])).

(** The set [[a-zA-Z0-9_.-]] by code points: the letters, the digits and
    the three signs. *)
Lemma repo_chars_code_points (c : ascii) :
  in_set repo_chars c = true <->
  (let n := nat_of_ascii c in
   97 <= n <= 122 \/ 65 <= n <= 90 \/ 48 <= n <= 57
   \/ n = 95 \/ n = 46 \/ n = 45).
Proof.
  destruct c as [[] [] [] [] [] [] [] []]; vm_compute; split; intro H;
    try reflexivity; try discriminate H; try lia.
Qed.

Lemma url_sound (s : string) (m : captures) :
  match_ GITHUB_URL_PATTERN s = Some m ->
  exists o n, m = [(2, n); (1, o)] /\ token o /\ token n /\ url_shape s o n.
Proof.
  intro H. apply match_sound in H. destruct H as (w & rest & -> & H).
  unfold GITHUB_URL_PATTERN in H. cbn [cat sem] in H.
  break_all; subst;
    (do 2 eexists; split; [reflexivity|];
     split; [now split|]; split; [now split|]);
    match goal with
    | |- url_shape (("" ++ ?sch ++ ?www ++ "github.com/" ++ _ ++ "/" ++ _
                       ++ ?git ++ ?sl ++ "") ++ ?e) _ _ =>
        exists sch, www, git, sl, e
    end;
    (split; [now norm_app|]); simpl; unfold at_end; auto 8.
Qed.

Lemma ssh_sound (s : string) (m : captures) :
  match_ GITHUB_SSH_PATTERN s = Some m ->
  exists o n, m = [(2, n); (1, o)] /\ token o /\ token n /\ ssh_shape s o n.
Proof.
  intro H. apply match_sound in H. destruct H as (w & rest & -> & H).
  unfold GITHUB_SSH_PATTERN in H. cbn [cat sem] in H.
  break_all; subst;
    (do 2 eexists; split; [reflexivity|];
     split; [now split|]; split; [now split|]);
    match goal with
    | |- ssh_shape (("" ++ "git@github.com:" ++ _ ++ "/" ++ _
                       ++ ?git ++ "") ++ ?e) _ _ =>
        exists git, e
    end;
    (split; [now norm_app|]); simpl; unfold at_end; auto 8.
Qed.

Lemma bare_sound (s : string) (m : captures) :
  match_ OWNER_REPO_PATTERN s = Some m ->
  exists o n, m = [(2, n); (1, o)] /\ token o /\ token n /\ bare_shape s o n.
Proof.
  intro H. apply match_sound in H. destruct H as (w & rest & -> & H).
  unfold OWNER_REPO_PATTERN in H. cbn [cat sem] in H.
  break_all; subst;
    (do 2 eexists; split; [reflexivity|];
     split; [now split|]; split; [now split|]);
    match goal with
    | |- bare_shape (_ ++ ?e) _ _ => exists e
    end;
    (split; [now norm_app|]); simpl; unfold at_end; auto 8.
Qed.

Lemma count_app (c : ascii) (a b : string) :
  count c (a ++ b) = count c a + count c b.
Proof.
  induction a as [|x a IH]; simpl; [reflexivity|]. rewrite IH. lia.
Qed.

Lemma count_outside (f : ascii -> bool) (c : ascii) (w : string) :
  f c = false -> Str.forallb f w = true -> count c w = 0.
Proof.
  intros Hc. induction w as [|x w IH]; simpl; [reflexivity|].
  intro H. apply andb_true_iff in H. destruct H as [Hx Hw].
  destruct (Ascii.eqb_spec x c) as [->|_]; [congruence|]. now apply IH.
Qed.

Lemma token_count (c : ascii) (w : string) :
  in_set repo_chars c = false -> token w -> count c w = 0.
Proof. intros Hc [_ Hw]. now apply count_outside with (f := in_set repo_chars). Qed.

Ltac split_in :=
  repeat match goal with
         | H : In _ _ |- _ => simpl in H
         | H : at_end _ |- _ => unfold at_end in H
         | H : _ \/ _ |- _ => destruct H
         | H : False |- _ => destruct H
         end.

Lemma url_count (s o n : string) :
  token o -> token n -> url_shape s o n ->
  2 <= count "/" s /\ count "@" s = 0.
Proof.
  intros To Tn (scheme & www & git & slash & e & -> & H).
  rewrite !count_app.
  rewrite (@token_count "/" o), (@token_count "/" n),
          (@token_count "@" o), (@token_count "@" n) by (auto; reflexivity).
  break. split_in; subst; simpl; lia.
Qed.

Lemma ssh_count (s o n : string) : ssh_shape s o n -> 1 <= count "@" s.
Proof.
  intros (git & e & -> & _). rewrite count_app. simpl. lia.
Qed.

Lemma bare_count (s o n : string) :
  token o -> token n -> bare_shape s o n ->
  count "/" s = 1 /\ count "@" s = 0.
Proof.
  intros To Tn (e & -> & H).
  rewrite !count_app.
  rewrite (@token_count "/" o), (@token_count "/" n),
          (@token_count "@" o), (@token_count "@" n) by (auto; reflexivity).
  split_in; subst; simpl; lia.
Qed.

(** No subject matches two of the three patterns. *)
Lemma patterns_exclusive (t : string) :
  List.length (matching_patterns t) <= 1.
Proof.
  unfold matching_patterns, matches. simpl.
  destruct (match_ GITHUB_URL_PATTERN t) as [m1|] eqn:E1;
    destruct (match_ GITHUB_SSH_PATTERN t) as [m2|] eqn:E2;
    destruct (match_ OWNER_REPO_PATTERN t) as [m3|] eqn:E3;
    simpl; try lia; exfalso;
    repeat match goal with
           | H : match_ GITHUB_URL_PATTERN _ = Some _ |- _ =>
               apply url_sound in H;
               destruct H as (? & ? & _ & ? & ? & H);
               apply url_count in H; [|assumption..]
           | H : match_ GITHUB_SSH_PATTERN _ = Some _ |- _ =>
               apply ssh_sound in H;
               destruct H as (? & ? & _ & ? & ? & H);
               apply ssh_count in H
           | H : match_ OWNER_REPO_PATTERN _ = Some _ |- _ =>
               apply bare_sound in H;
               destruct H as (? & ? & _ & ? & ? & H);
               apply bare_count in H; [|assumption..]
           end; lia.
Qed.

(** What [_parse_repo_info] returns on a string: nothing when no pattern
    matches, else the two groups of the first pattern that does. *)
Lemma parse_cases (s : string) :
  (matching_patterns (Str.strip s) = []
   /\ _parse_repo_info (Some s) = (None, None))
  \/ (exists o n,
        _parse_repo_info (Some s) = (Some o, Some n)
        /\ token o /\ token n
        /\ matching_patterns (Str.strip s) <> []).
Proof.
  unfold _parse_repo_info, matching_patterns, matches. simpl.
  set (t := Str.strip s).
  destruct (match_ GITHUB_URL_PATTERN t) as [m1|] eqn:E1.
  { right. apply url_sound in E1. destruct E1 as (o & n & -> & To & Tn & _).
    exists o, n. simpl.
    split; [reflexivity|]. split; [assumption|]. split; [assumption|].
    discriminate. }
  destruct (match_ GITHUB_SSH_PATTERN t) as [m2|] eqn:E2.
  { right. apply ssh_sound in E2. destruct E2 as (o & n & -> & To & Tn & _).
    exists o, n. simpl.
    split; [reflexivity|]. split; [assumption|]. split; [assumption|].
    discriminate. }
  destruct (match_ OWNER_REPO_PATTERN t) as [m3|] eqn:E3.
  { right. apply bare_sound in E3. destruct E3 as (o & n & -> & To & Tn & _).
    exists o, n. simpl.
    split; [reflexivity|]. split; [assumption|]. split; [assumption|].
    discriminate. }
  left. auto.
Qed.

(** C7. Whenever [_parse_repo_info] returns an owner and a name, both are
    non-empty and made of characters of [[a-zA-Z0-9_.-]] only. *)
Theorem parse_repo_info_tokens (repo_url : option string) (owner name : string) :
  _parse_repo_info repo_url = (Some owner, Some name) ->
  (owner <> "" /\ Str.forallb (in_set repo_chars) owner = true)
  /\ (name <> "" /\ Str.forallb (in_set repo_chars) name = true).
Proof.
  destruct repo_url as [s|]; [|discriminate].
  destruct (parse_cases s) as [[_ E]|(o & n & E & To & Tn & _)];
    rewrite E; intro H; inversion H; subst; auto.
Qed.

Lemma parse_repo_info_tokens_witness :
  ("my-org" <> "" /\ Str.forallb (in_set repo_chars) "my-org" = true)
  /\ ("my_repo.test" <> ""
      /\ Str.forallb (in_set repo_chars) "my_repo.test" = true).
Proof.
  apply (@parse_repo_info_tokens (Some "my-org/my_repo.test")).
  vm_compute. reflexivity.
Defined.

(** C2. An input that [_parse_repo_info] accepts matches, once stripped,
    exactly one of the three patterns; the four adversarial references are
    rejected. *)
Theorem grammar_exclusivity :
  (forall (s owner name : string),
      _parse_repo_info (Some s) = (Some owner, Some name) ->
      List.length (matching_patterns (Str.strip s)) = 1)
  /\ _parse_repo_info (Some "owner/repo/extra") = (None, None)
  /\ _parse_repo_info (Some "https://evil.com/github.com/owner/repo")
     = (None, None)
  /\ _parse_repo_info (Some "https://github.com.evil.com/owner/repo")
     = (None, None)
  /\ _parse_repo_info (Some "https://github.com@evil.com/owner/repo")
     = (None, None).
Proof.
  split; [|repeat split; vm_compute; reflexivity].
  intros s owner name H.
  pose proof (patterns_exclusive (Str.strip s)) as Hle.
  destruct (parse_cases s) as [[_ E]|(o & n & _ & _ & _ & Hne)].
  - rewrite E in H. discriminate.
  - destruct (matching_patterns (Str.strip s)); [now elim Hne|].
    simpl in *. lia.
Qed.

Lemma grammar_exclusivity_witness :
  List.length (matching_patterns (Str.strip "  git@github.com:owner/repo.git ")) = 1.
Proof.
  apply (proj1 grammar_exclusivity
           "  git@github.com:owner/repo.git " "owner" "repo").
  vm_compute. reflexivity.
Defined.

(** C6. The three spellings of one repository parse to the same pair. *)
Theorem parse_round_trip :
  _parse_repo_info (Some "https://github.com/owner/repo.git")
  = (Some "owner", Some "repo")
  /\ _parse_repo_info (Some "git@github.com:owner/repo")
     = (Some "owner", Some "repo")
  /\ _parse_repo_info (Some "owner/repo") = (Some "owner", Some "repo").
Proof. repeat split; vm_compute; reflexivity. Qed.

Section Completeness.

Variable A : Type.
Implicit Types (k : cont A) (x : A).

Lemma many_greedy_all cs w : forall pos s caps k x,
  Str.forallb (in_set cs) w = true ->
  stops cs s ->
  k (pos + String.length w) s caps = Some x ->
  many_greedy cs pos (w ++ s) caps k = Some x.
Proof.
  induction w as [|c w IH]; intros pos s caps k x Hw Hs Hk; simpl in *.
  - rewrite Nat.add_0_r in Hk.
    destruct s as [|c s]; simpl; [exact Hk|]. simpl in Hs. now rewrite Hs.
  - apply andb_true_iff in Hw. destruct Hw as [Hc Hw]. rewrite Hc.
    rewrite (IH (S pos) s caps k x); auto.
    now rewrite Nat.add_succ_r in Hk.
Qed.

Lemma many_lazy_first cs w : forall pos s caps k x,
  Str.forallb (in_set cs) w = true ->
  (forall w1 w2, w = w1 ++ w2 -> w2 <> "" ->
                 k (pos + String.length w1) (w2 ++ s) caps = None) ->
  k (pos + String.length w) s caps = Some x ->
  many_lazy cs pos (w ++ s) caps k = Some x.
Proof.
  induction w as [|c w IH]; intros pos s caps k x Hw Hnot Hk; simpl in *.
  - rewrite Nat.add_0_r in Hk. destruct s; simpl; now rewrite Hk.
  - apply andb_true_iff in Hw. destruct Hw as [Hc Hw].
    pose proof (Hnot "" (String c w) eq_refl) as H0.
    simpl in H0. rewrite Nat.add_0_r in H0.
    rewrite H0 by discriminate. simpl. rewrite Hc.
    apply IH; auto.
    + intros w1 w2 E N. specialize (Hnot (String c w1) w2).
      simpl in Hnot. rewrite Nat.add_succ_r in Hnot.
      apply Hnot; auto. now rewrite E.
    + now rewrite Nat.add_succ_r in Hk.
Qed.

Lemma run_seq r1 r2 pos s caps k :
  run (Seq r1 r2) pos s caps k
  = run r1 pos s caps (fun pos' s' caps' => run r2 pos' s' caps' k).
Proof. reflexivity. Qed.

Lemma run_lit l pos s caps k x :
  k (pos + String.length l) s caps = Some x ->
  run (Lit l) pos (l ++ s) caps k = Some x.
Proof. intro H. simpl. now rewrite startswith_app, drop_app. Qed.

Lemma run_opt_take r pos s caps k x :
  run r pos s caps k = Some x -> run (Opt r) pos s caps k = Some x.
Proof. intro H. simpl. now rewrite H. Qed.

Lemma run_opt_skip r pos s caps k x :
  run r pos s caps k = None -> k pos s caps = Some x ->
  run (Opt r) pos s caps k = Some x.
Proof. intros N H. simpl. now rewrite N. Qed.

(** A greedy group takes the whole token before a character that cannot
    extend it. *)
Lemma run_group_greedy i cs w pos s caps k x :
  w <> "" -> Str.forallb (in_set cs) w = true -> stops cs s ->
  k (pos + String.length w) s ((i, w) :: caps) = Some x ->
  run (Group i (Plus true cs)) pos (w ++ s) caps k = Some x.
Proof.
  intros Hne Hw Hs Hk. destruct w as [|c w]; [now elim Hne|].
  simpl in Hw. apply andb_true_iff in Hw. destruct Hw as [Hc Hw].
  cbn [run String.append]. rewrite Hc.
  apply many_greedy_all; auto.
  replace (S pos + String.length w - pos) with (String.length (String c w))
    by (cbn [String.length]; lia).
  change (String c (w ++ s)) with (String c w ++ s).
  rewrite substring_app. simpl in Hk. now rewrite Nat.add_succ_r in Hk.
Qed.

(** A lazy group takes the shortest prefix of the token after which the
    rest of the pattern matches. *)
Lemma run_group_lazy i cs w pos s caps k x :
  w <> "" -> Str.forallb (in_set cs) w = true ->
  (forall w1 w2, w = w1 ++ w2 -> w1 <> "" -> w2 <> "" ->
     k (pos + String.length w1) (w2 ++ s) ((i, w1) :: caps) = None) ->
  k (pos + String.length w) s ((i, w) :: caps) = Some x ->
  run (Group i (Plus false cs)) pos (w ++ s) caps k = Some x.
Proof.
  intros Hne Hw Hnot Hk. destruct w as [|c w]; [now elim Hne|].
  simpl in Hw. apply andb_true_iff in Hw. destruct Hw as [Hc Hw].
  cbn [run String.append]. rewrite Hc.
  apply many_lazy_first; auto.
  - intros w1 w2 E N.
    replace (S pos + String.length w1 - pos)
      with (String.length (String c w1)) by (cbn [String.length]; lia).
    subst w. rewrite app_assoc.
    change (String c (w1 ++ w2 ++ s)) with (String c w1 ++ w2 ++ s).
    rewrite substring_app.
    specialize (Hnot (String c w1) w2). simpl in Hnot.
    rewrite Nat.add_succ_r in Hnot.
    apply Hnot; auto; discriminate.
  - replace (S pos + String.length w - pos)
      with (String.length (String c w)) by (cbn [String.length]; lia).
    change (String c (w ++ s)) with (String c w ++ s).
    rewrite substring_app. simpl in Hk. now rewrite Nat.add_succ_r in Hk.
Qed.

End Completeness.

Lemma repo_char_not_space (c : ascii) :
  in_set repo_chars c = true -> Str.isspace c = false.
Proof.
  destruct c as [[] [] [] [] [] [] [] []]; vm_compute; congruence.
Qed.

Lemma app_not_nil_r (a b : string) : b <> "" -> a ++ b <> "".
Proof. destruct a; simpl; [auto | discriminate]. Qed.

Lemma rstrip_app_id (a b : string) :
  Str.rstrip b = b -> b <> "" -> Str.rstrip (a ++ b) = a ++ b.
Proof.
  intros Hb Hne. induction a as [|c a IH]; simpl; [exact Hb|].
  rewrite IH. destruct (a ++ b) eqn:E; [|reflexivity].
  now apply app_not_nil_r with (a := a) in Hne.
Qed.

Lemma lstrip_token (w s : string) : token w -> Str.lstrip (w ++ s) = w ++ s.
Proof.
  intros [Hne Hw]. destruct w as [|c w]; [now elim Hne|].
  simpl in *. apply andb_true_iff in Hw. destruct Hw as [Hc _].
  now rewrite (repo_char_not_space _ Hc).
Qed.

Lemma token_length (w : string) : token w -> 0 < String.length w.
Proof. intros [Hne _]. destruct w; simpl; [now elim Hne | lia]. Qed.

Lemma token_app_r (w1 w2 : string) :
  Str.forallb (in_set repo_chars) (w1 ++ w2) = true -> w2 <> "" -> token w2.
Proof.
  rewrite forallb_app. intros H N. apply andb_true_iff in H. now split.
Qed.

(** After a proper prefix of the name, what follows [.git] cannot match. *)
Lemma url_tail_fails (q slash : string) pos caps :
  token q -> In slash [""; "/"] ->
  run url_tail pos (q ++ ".git" ++ slash) caps done = None.
Proof.
  intros Tq Hs.
  destruct (run url_tail pos (q ++ ".git" ++ slash) caps done) eqn:E;
    [exfalso | reflexivity].
  apply run_sound in E. destruct E as (w & rest & caps' & Heq & Hsem & _).
  unfold url_tail in Hsem. cbn [cat sem] in Hsem.
  pose proof (token_length Tq) as Hlen.
  pose proof (f_equal String.length Heq) as E1.
  pose proof (f_equal (count "/") Heq) as E2.
  pose proof (f_equal (count LF) Heq) as E3.
  rewrite !length_app, !count_app in *.
  rewrite (@token_count "/" q), (@token_count LF q) in * by (auto; reflexivity).
  break_all; split_in; subst; simpl in *; lia.
Qed.

Lemma ssh_tail_fails (q : string) pos caps :
  token q -> run ssh_tail pos (q ++ ".git") caps done = None.
Proof.
  intros Tq.
  destruct (run ssh_tail pos (q ++ ".git") caps done) eqn:E;
    [exfalso | reflexivity].
  apply run_sound in E. destruct E as (w & rest & caps' & Heq & Hsem & _).
  unfold ssh_tail in Hsem. cbn [cat sem] in Hsem.
  pose proof (token_length Tq) as Hlen.
  pose proof (f_equal String.length Heq) as E1.
  pose proof (f_equal (count LF) Heq) as E3.
  rewrite !length_app, !count_app in *.
  rewrite (@token_count LF q) in * by (auto; reflexivity).
  break_all; split_in; subst; simpl in *; lia.
Qed.

Lemma slash_stops (s : string) : stops repo_chars ("/" ++ s).
Proof. reflexivity. Qed.

(** Owner, slash and name before [.git], in an HTTPS reference. *)
Lemma url_rest_git (o n slash : string) pos :
  token o -> token n -> In slash [""; "/"] ->
  run (cat [Group 1 (Plus true repo_chars); Lit "/";
            Group 2 (Plus false repo_chars); url_tail])
      pos (o ++ "/" ++ n ++ ".git" ++ slash) [] done
  = Some [(2, n); (1, o)].
Proof.
  intros [No Ho] [Nn Hn] Hs. cbn [cat]. rewrite run_seq.
  apply run_group_greedy; auto using slash_stops.
  rewrite run_seq. apply run_lit. rewrite run_seq.
  apply run_group_lazy; auto.
  - intros w1 w2 E N1 N2. apply url_tail_fails; auto.
    subst n. now apply token_app_r with (w1 := w1).
  - simpl in Hs. destruct Hs as [<-|[<-|[]]]; reflexivity.
Qed.

Lemma ssh_rest_git (o n : string) pos :
  token o -> token n ->
  run (cat [Group 1 (Plus true repo_chars); Lit "/";
            Group 2 (Plus false repo_chars); ssh_tail])
      pos (o ++ "/" ++ n ++ ".git") [] done
  = Some [(2, n); (1, o)].
Proof.
  intros [No Ho] [Nn Hn]. cbn [cat]. rewrite run_seq.
  apply run_group_greedy; auto using slash_stops.
  rewrite run_seq. apply run_lit. rewrite run_seq.
  apply run_group_lazy; auto.
  intros w1 w2 E N1 N2. apply ssh_tail_fails; auto.
  subst n. now apply token_app_r with (w1 := w1).
Qed.

Lemma prefix_nil (s : string) : String.prefix "" s = true.
Proof. now destruct s. Qed.

Lemma url_match_git (scheme www o n slash : string) :
  In scheme [""; "http://"; "https://"] -> In www [""; "www."] ->
  token o -> token n -> In slash [""; "/"] ->
  match_ GITHUB_URL_PATTERN
    (scheme ++ www ++ "github.com/" ++ o ++ "/" ++ n ++ ".git" ++ slash)
  = Some [(2, n); (1, o)].
Proof.
  intros Hsch Hwww To Tn Hsl.
  pose proof (fun pos => @url_rest_git o n slash pos To Tn Hsl) as HR.
  unfold match_, GITHUB_URL_PATTERN.
  change (cat [Bos; ?a; ?b; ?c; ?d; ?e; ?f; ?g; ?h; ?i])
    with (Seq Bos (Seq a (Seq b (Seq c (cat [d; e; f; url_tail]))))).
  fold done.
  set (R := cat _) in *. set (S := o ++ _) in *. clearbody R S.
  simpl in Hsch, Hwww.
  destruct Hsch as [<-|[<-|[<-|[]]]]; destruct Hwww as [<-|[<-|[]]];
    cbn; rewrite ?prefix_nil; cbn; rewrite ?HR; reflexivity.
Qed.

Lemma ssh_match_git (o n : string) :
  token o -> token n ->
  match_ GITHUB_SSH_PATTERN ("git@github.com:" ++ o ++ "/" ++ n ++ ".git")
  = Some [(2, n); (1, o)].
Proof.
  intros To Tn.
  pose proof (fun pos => @ssh_rest_git o n pos To Tn) as HR.
  unfold match_, GITHUB_SSH_PATTERN.
  change (cat [Bos; ?a; ?b; ?c; ?d; ?e; ?f])
    with (Seq Bos (Seq a (cat [b; c; d; ssh_tail]))).
  fold done.
  set (R := cat _) in *. set (S := o ++ _) in *. clearbody R S.
  cbn; rewrite ?prefix_nil; cbn; rewrite ?HR; reflexivity.
Qed.

(** The bare pattern has no [.git] of its own: the second group takes all
    that follows the slash. *)
Lemma bare_match (o w : string) :
  token o -> token w ->
  match_ OWNER_REPO_PATTERN (o ++ "/" ++ w) = Some [(2, w); (1, o)].
Proof.
  intros [No Ho] [Nw Hw]. unfold match_, OWNER_REPO_PATTERN. cbn [cat].
  rewrite run_seq. change (run Bos 0 ?s ?c ?k) with (k 0 s c). cbv beta.
  rewrite run_seq. apply run_group_greedy; auto using slash_stops.
  rewrite run_seq. apply run_lit. rewrite run_seq.
  rewrite <- (app_nil_r w) at 1.
  apply run_group_greedy; simpl; auto.
Qed.

Lemma url_no_match (s : string) :
  count "/" s < 2 \/ 0 < count "@" s -> match_ GITHUB_URL_PATTERN s = None.
Proof.
  intro H. destruct (match_ GITHUB_URL_PATTERN s) eqn:E; [|reflexivity].
  apply url_sound in E. destruct E as (o & n & _ & To & Tn & E).
  apply url_count in E; auto. lia.
Qed.

Lemma ssh_no_match (s : string) :
  count "@" s = 0 -> match_ GITHUB_SSH_PATTERN s = None.
Proof.
  intro H. destruct (match_ GITHUB_SSH_PATTERN s) eqn:E; [|reflexivity].
  apply ssh_sound in E. destruct E as (o & n & _ & To & Tn & E).
  apply ssh_count in E; auto. lia.
Qed.

Lemma strip_id (s : string) :
  Str.lstrip s = s -> Str.rstrip s = s -> Str.strip s = s.
Proof. unfold Str.strip. now intros -> ->. Qed.

Lemma token_app (a b : string) : token a -> token b -> token (a ++ b).
Proof.
  intros [Na Ha] [Nb Hb]. split; [now apply app_not_nil_r|].
  now rewrite forallb_app, Ha, Hb.
Qed.

Lemma token_git : token ".git".
Proof. split; [discriminate | reflexivity]. Qed.

Ltac rstrip_id :=
  repeat (apply rstrip_app_id;
          [|solve [repeat first [discriminate | apply app_not_nil_r]]]);
  try reflexivity.

(** C5, as the code has it.  For every owner and name of the grammar, the
    HTTPS and the SSH references that end in [.git] give the name without
    it; the bare reference [owner/name.git] gives the name with it. *)
Theorem git_suffix_by_shape (owner name : string) :
  token owner -> token name ->
  (forall scheme www slash,
      In scheme [""; "http://"; "https://"] -> In www [""; "www."] ->
      In slash [""; "/"] ->
      _parse_repo_info
        (Some (scheme ++ www ++ "github.com/" ++ owner ++ "/"
                      ++ name ++ ".git" ++ slash))
      = (Some owner, Some name))
  /\ _parse_repo_info
       (Some ("git@github.com:" ++ owner ++ "/" ++ name ++ ".git"))
     = (Some owner, Some name)
  /\ _parse_repo_info (Some (owner ++ "/" ++ name ++ ".git"))
     = (Some owner, Some (name ++ ".git")).
Proof.
  intros To Tn. split; [|split].
  - intros scheme www slash Hsch Hwww Hsl. unfold _parse_repo_info.
    rewrite strip_id.
    + now rewrite url_match_git.
    + simpl in Hsch, Hwww.
      destruct Hsch as [<-|[<-|[<-|[]]]]; destruct Hwww as [<-|[<-|[]]];
        reflexivity.
    + simpl in Hsl. destruct Hsl as [<-|[<-|[]]]; rstrip_id.
  - unfold _parse_repo_info. rewrite strip_id; [|reflexivity|rstrip_id].
    rewrite url_no_match.
    + now rewrite ssh_match_git.
    + right. simpl. lia.
  - unfold _parse_repo_info.
    rewrite strip_id; [|now apply lstrip_token|rstrip_id].
    pose proof (@token_count "/" owner eq_refl To) as C1.
    pose proof (@token_count "/" name eq_refl Tn) as C2.
    pose proof (@token_count "@" owner eq_refl To) as C3.
    pose proof (@token_count "@" name eq_refl Tn) as C4.
    rewrite url_no_match, ssh_no_match.
    + rewrite bare_match; auto using token_app, token_git.
    + rewrite !count_app, C3, C4. reflexivity.
    + left. rewrite !count_app, C1, C2. simpl. lia.
Qed.

Lemma git_suffix_by_shape_witness :
  token "my-org" /\ token "a.git"
  /\ _parse_repo_info (Some ("https://" ++ "www." ++ "github.com/" ++ "my-org"
                             ++ "/" ++ "a.git" ++ ".git" ++ "/"))
     = (Some "my-org", Some "a.git").
Proof.
  assert (T1 : token "my-org") by (split; [discriminate | reflexivity]).
  assert (T2 : token "a.git") by (split; [discriminate | reflexivity]).
  split; [exact T1|]. split; [exact T2|].
  apply (proj1 (git_suffix_by_shape T1 T2)); simpl; auto.
Defined.

(** C5 fails on the bare shape: [owner/repo.git] keeps its [.git]. *)
Lemma git_suffix_bare_kept :
  ~ (forall owner name : string,
        token owner -> token name ->
        _parse_repo_info (Some (owner ++ "/" ++ name ++ ".git"))
        = (Some owner, Some name)).
Proof.
  intro H. specialize (H "owner" "repo").
  assert (T1 : token "owner") by (split; [discriminate | reflexivity]).
  assert (T2 : token "repo") by (split; [discriminate | reflexivity]).
  specialize (H T1 T2). vm_compute in H. discriminate H.
Qed.

(** C3. The four traversals out of [/workspace] are rejected, the sibling
    [/workspaceevil] with them. *)
Theorem traversal_rejected (cwd : string) :
  _sanitize_path cwd "../x" "/workspace"
  = Return ("", Some (traversal_msg "/workspace"))
  /\ _sanitize_path cwd "../../etc/passwd" "/workspace"
     = Return ("", Some (traversal_msg "/workspace"))
  /\ _sanitize_path cwd "foo/../../etc" "/workspace"
     = Return ("", Some (traversal_msg "/workspace"))
  /\ _sanitize_path cwd "../workspaceevil" "/workspace"
     = Return ("", Some (traversal_msg "/workspace"))
  /\ posixpath.normpath (posixpath.join "/workspace" "../workspaceevil")
     = "/workspaceevil"
  /\ Str.startswith "/workspaceevil" "/workspace" = true.
Proof. repeat split; vm_compute; reflexivity. Qed.

Lemma absolute_not_traversal (target base : string) :
  absolute_msg target <> traversal_msg base
  /\ absolute_msg target <> invalid_msg base.
Proof. split; discriminate. Qed.

(** C4. An absolute target is rejected whatever the base, with the message
    of absolute paths, which is neither of the two other messages. *)
Theorem absolute_rejected (cwd target base : string) :
  posixpath.isabs target = true ->
  _sanitize_path cwd target base = Return ("", Some (absolute_msg target))
  /\ (forall b, absolute_msg target <> traversal_msg b)
  /\ (forall b, absolute_msg target <> invalid_msg b).
Proof.
  intro H. unfold _sanitize_path. rewrite H.
  repeat split; intro b; apply absolute_not_traversal.
Qed.

Lemma absolute_rejected_witness :
  _sanitize_path "/home/agent" "/etc/passwd" "/workspace"
  = Return ("", Some (absolute_msg "/etc/passwd"))
  /\ (forall b, absolute_msg "/etc/passwd" <> traversal_msg b)
  /\ (forall b, absolute_msg "/etc/passwd" <> invalid_msg b).
Proof. apply absolute_rejected. reflexivity. Defined.

(** C1, as the code has it.  An accepted path is the canonical base
    [abspath(base)], or starts with it and a separator; so it is with
    [base] itself when [base] is absolute and normalised. *)
Theorem containment (cwd target base path : string) :
  _sanitize_path cwd target base = Return (path, None) ->
  (path = posixpath.abspath cwd base
   \/ Str.startswith path (posixpath.abspath cwd base ++ posixpath.sep) = true)
  /\ (posixpath.isabs base = true -> posixpath.normpath base = base ->
      path = base \/ Str.startswith path (base ++ posixpath.sep) = true).
Proof.
  intro H.
  assert (G : path = posixpath.abspath cwd base
              \/ Str.startswith path
                   (posixpath.abspath cwd base ++ posixpath.sep) = true).
  { unfold _sanitize_path in H.
    destruct (posixpath.isabs target); [discriminate|].
    set (b := posixpath.abspath cwd base) in *.
    set (f := posixpath.normpath (posixpath.join b target)) in *.
    destruct (posixpath.commonpath [b; f]) as [common|[msg|]];
      [|discriminate..].
    destruct (negb (common =? b)); [discriminate|].
    destruct ((f =? b) || Str.startswith f (b ++ posixpath.sep)) eqn:E;
      simpl in H; [|discriminate].
    injection H as <-. apply orb_true_iff in E.
    destruct E as [E|E]; [left; now apply String.eqb_eq | now right]. }
  split; [exact G|].
  intros Habs Hnorm. unfold posixpath.abspath in G.
  now rewrite Habs, Hnorm in G.
Qed.

Lemma containment_witness :
  ("/workspace/org/repo" = posixpath.abspath "/" "/workspace/"
   \/ Str.startswith "/workspace/org/repo"
        (posixpath.abspath "/" "/workspace/" ++ posixpath.sep) = true)
  /\ (posixpath.isabs "/workspace/" = true ->
      posixpath.normpath "/workspace/" = "/workspace/" ->
      "/workspace/org/repo" = "/workspace/"
      \/ Str.startswith "/workspace/org/repo"
           ("/workspace/" ++ posixpath.sep) = true).
Proof.
  apply (@containment "/" "org/repo" "/workspace/" "/workspace/org/repo").
  vm_compute. reflexivity.
Defined.

(** C1 fails on a base that is absolute and not normalised: the accepted
    path is neither [base] nor [base] and a separator before more. *)
Lemma containment_raw_base_fails :
  ~ (forall cwd target base path : string,
        posixpath.isabs base = true ->
        _sanitize_path cwd target base = Return (path, None) ->
        path = base \/ Str.startswith path (base ++ posixpath.sep) = true).
Proof.
  intro H.
  specialize (H "/" "x" "/workspace/" "/workspace/x" eq_refl eq_refl).
  destruct H as [H|H]; vm_compute in H; discriminate H.
Qed.

Lemma split_not_nil (c : ascii) (s : string) : Str.split c s <> [].
Proof.
  destruct s as [|x s]; simpl; [discriminate|].
  destruct (Ascii.eqb x c); [discriminate|].
  destruct (Str.split c s); discriminate.
Qed.

(** Splitting at a separator splits the list of fields. *)
Lemma split_app_sep (c : ascii) (a b : string) :
  Str.split c (a ++ String c b) = (Str.split c a ++ Str.split c b)%list.
Proof.
  induction a as [|x a IH]; simpl.
  - now rewrite Ascii.eqb_refl.
  - destruct (Ascii.eqb x c); [now rewrite IH|].
    rewrite IH. pose proof (split_not_nil c a) as N.
    destruct (Str.split c a); [now elim N | reflexivity].
Qed.

Lemma endswith_inv (s : string) (c : ascii) :
  Str.endswith s (String c "") = true -> exists s0, s = s0 ++ String c "".
Proof.
  induction s as [|x s IH]; intro H; cbn [Str.endswith] in H.
  { rewrite orb_false_r in H. discriminate H. }
  apply orb_true_iff in H. destruct H as [H|H].
  - apply String.eqb_eq in H. exists "". exact H.
  - destruct (IH H) as [s0 ->]. now exists (String x s0).
Qed.

Lemma prefix_cons (a b : ascii) (p s : string) :
  String.prefix (String a p) (String b s) = Ascii.eqb a b && String.prefix p s.
Proof.
  simpl. destruct (ascii_dec a b) as [->|N].
  - now rewrite Ascii.eqb_refl.
  - apply Ascii.eqb_neq in N. now rewrite N.
Qed.

Lemma prefix_cons_nil (a : ascii) (p : string) :
  String.prefix (String a p) "" = false.
Proof. reflexivity. Qed.

Ltac prefix_bools :=
  cbn [String.append Str.repeat] in *;
  rewrite ?prefix_cons, ?prefix_nil, ?prefix_cons_nil in *.

Ltac decide_chars :=
  repeat match goal with
         | |- context [Ascii.eqb "/" ?c] =>
             is_var c; destruct (Ascii.eqb_spec "/" c); subst
         | H : context [Ascii.eqb "/" ?c] |- _ =>
             is_var c; destruct (Ascii.eqb_spec "/" c); subst
         end.

(** A [./] inserted after a separator leaves the leading slashes as they
    are. *)
Lemma initial_slashes_dot (a x : string) :
  posixpath.isabs x = false ->
  posixpath.initial_slashes (a ++ "/" ++ "./" ++ x)
  = posixpath.initial_slashes (a ++ "/" ++ x).
Proof.
  unfold posixpath.isabs, posixpath.initial_slashes, Str.startswith,
    posixpath.sep. intro Hx.
  destruct a as [|a1 [|a2 [|a3 a]]]; destruct x as [|x1 x];
    prefix_bools; decide_chars; simpl in *;
    try reflexivity; try discriminate.
Qed.

Lemma step_dot (n : nat) (acc : list string) :
  posixpath.normpath_step n acc "." = acc.
Proof. reflexivity. Qed.

Lemma not_empty_app_sep (a b : string) : (a ++ "/" ++ b =? "") = false.
Proof. apply String.eqb_neq. destruct a; discriminate. Qed.

Lemma normpath_dot_after_sep (a x : string) :
  posixpath.isabs x = false ->
  posixpath.normpath (a ++ "/" ++ "./" ++ x)
  = posixpath.normpath (a ++ "/" ++ x).
Proof.
  intro Hx. unfold posixpath.normpath.
  rewrite !not_empty_app_sep, (@initial_slashes_dot a x Hx).
  change (a ++ "/" ++ "./" ++ x) with (a ++ String "/" ("." ++ String "/" x)).
  change (a ++ "/" ++ x) with (a ++ String "/" x).
  rewrite !split_app_sep, !fold_left_app. reflexivity.
Qed.

Lemma normpath_dot_first (x : string) :
  posixpath.isabs x = false ->
  posixpath.normpath ("./" ++ x) = posixpath.normpath x.
Proof.
  intro Hx. destruct x as [|c x]; [reflexivity|].
  unfold posixpath.normpath.
  change ("./" ++ String c x) with ("." ++ String "/" (String c x)).
  rewrite split_app_sep, fold_left_app.
  assert (E : posixpath.initial_slashes (String c x) = 0).
  { unfold posixpath.initial_slashes. unfold posixpath.isabs in Hx.
    now rewrite Hx. }
  rewrite E. reflexivity.
Qed.

(** Joining [./x] or [x] to a directory gives the same normal path. *)
Lemma normpath_join_dot (b x : string) :
  posixpath.isabs x = false ->
  posixpath.normpath (posixpath.join b ("./" ++ x))
  = posixpath.normpath (posixpath.join b x).
Proof.
  intro Hx. unfold posixpath.join.
  unfold posixpath.isabs in Hx. rewrite Hx.
  change (Str.startswith ("./" ++ x) posixpath.sep) with false. cbv iota.
  destruct (String.eqb_spec b "") as [->|Hb]; simpl orb.
  - simpl. now apply normpath_dot_first.
  - destruct (Str.endswith b posixpath.sep) eqn:E.
    + apply endswith_inv in E. destruct E as [b0 ->].
      rewrite !app_assoc. now apply normpath_dot_after_sep.
    + now apply normpath_dot_after_sep.
Qed.

(** C8. For a relative [x], [./x] and [x] give the same result, path and
    error alike, under every base directory. *)
Theorem dot_prefix_same_result (cwd base x : string) :
  posixpath.isabs x = false ->
  _sanitize_path cwd ("./" ++ x) base = _sanitize_path cwd x base.
Proof.
  intro Hx. unfold _sanitize_path. rewrite Hx.
  change (posixpath.isabs ("./" ++ x)) with false. cbv iota.
  now rewrite (@normpath_join_dot _ x Hx).
Qed.

Lemma dot_prefix_same_result_witness :
  _sanitize_path "/srv" ("./" ++ "a/../../b") "ws//"
  = _sanitize_path "/srv" "a/../../b" "ws//".
Proof. apply dot_prefix_same_result. reflexivity. Defined.

Lemma list_lt_not_gt (a b : list string) :
  posixpath.list_lt a b = true -> posixpath.list_gt a b = false.
Proof.
  revert b. induction a as [|x a IH]; intros [|y b]; simpl; auto;
    try discriminate.
  destruct (x =? y); [apply IH|].
  destruct (String.compare x y); auto; discriminate.
Qed.

Lemma proper_prefix_not_gt (a b : list string) :
  proper_prefix a b = true -> posixpath.list_gt a b = false.
Proof.
  revert b. induction a as [|x a IH]; intros [|y b]; simpl; auto;
    try discriminate.
  intro H. apply andb_true_iff in H. destruct H as [E H].
  rewrite E. now apply IH.
Qed.

Lemma proper_prefix_not_lt (a b : list string) :
  proper_prefix a b = true -> posixpath.list_lt b a = false.
Proof.
  revert b. induction a as [|x a IH]; intros [|y b]; simpl; auto;
    try discriminate.
  intro H. apply andb_true_iff in H. destruct H as [E H].
  rewrite String.eqb_sym, E. now apply IH.
Qed.

Lemma proper_prefix_irrefl (a : list string) : proper_prefix a a = false.
Proof.
  induction a as [|x a IH]; simpl; [reflexivity|].
  now rewrite IH, andb_false_r.
Qed.

(** The greatest of two lists is never a proper prefix of the least. *)
Lemma max_not_prefix_of_min (x y : list string) :
  proper_prefix (posixpath.py_max x [y]) (posixpath.py_min x [y]) = false.
Proof.
  unfold posixpath.py_max, posixpath.py_min. simpl.
  destruct (posixpath.list_lt y x) eqn:L.
  - rewrite (list_lt_not_gt _ _ L).
    destruct (proper_prefix x y) eqn:P; [|reflexivity].
    apply proper_prefix_not_lt in P. congruence.
  - destruct (posixpath.list_gt y x) eqn:G.
    + destruct (proper_prefix y x) eqn:P; [|reflexivity].
      apply proper_prefix_not_gt in P. congruence.
    + apply proper_prefix_irrefl.
Qed.

Lemma nth_error_app_length (pre l : list string) :
  nth_error (pre ++ l) (List.length pre) = nth_error l 0.
Proof. induction pre as [|p pre IH]; simpl; auto. Qed.

(** The loop of [commonpath] stays in range when [s2] does not stop short
    of [s1]. *)
Lemma common_loop_in_range (s1 : list string) :
  forall todo pre todo2,
    proper_prefix todo2 todo = false ->
    exists common,
      posixpath.common_loop s1 (pre ++ todo2) (List.length pre) todo
      = Return common.
Proof.
  induction todo as [|c todo IH]; intros pre todo2 H; simpl.
  - eauto.
  - rewrite nth_error_app_length.
    destruct todo2 as [|d todo2]; simpl in *; [discriminate|].
    destruct (c =? d) eqn:E; simpl; [|eauto].
    rewrite String.eqb_sym, E in H. simpl in H.
    specialize (IH (pre ++ [d])%list todo2 H).
    rewrite <- List.app_assoc, List.length_app, Nat.add_1_r in IH.
    exact IH.
Qed.

(** [commonpath] of two paths returns, or raises [ValueError]. *)
Lemma commonpath_two (a b : string) :
  (exists common, posixpath.commonpath [a; b] = Return common)
  \/ (exists msg, posixpath.commonpath [a; b] = Raise (ValueError msg)).
Proof.
  unfold posixpath.commonpath.
  destruct (negb _); [right; eauto|]. left.
  cbn [map].
  set (x := filter posixpath.kept (Str.split "/" a)).
  set (y := filter posixpath.kept (Str.split "/" b)).
  pose proof (max_not_prefix_of_min x y) as H.
  destruct (@common_loop_in_range (posixpath.py_min x [y])
              (posixpath.py_min x [y]) [] (posixpath.py_max x [y]) H)
    as [common E].
  cbn [List.app List.length] in E. rewrite E. simpl. eauto.
Qed.

(** [_sanitize_path] returns: no exception leaves it. *)
Lemma sanitize_path_returns (cwd target base : string) :
  exists path err, _sanitize_path cwd target base = Return (path, err).
Proof.
  unfold _sanitize_path.
  destruct (posixpath.isabs target); [eauto|].
  set (b := posixpath.abspath cwd base).
  set (f := posixpath.normpath (posixpath.join b target)).
  destruct (commonpath_two b f) as [[common ->]|[msg ->]]; [|eauto].
  destruct (negb (common =? b)); [eauto|].
  destruct (negb _); eauto.
Qed.

(** What [_parse_repo_info] returns is all or nothing. *)
Lemma parse_all_or_nothing (repo_url : option string) :
  _parse_repo_info repo_url = (None, None)
  \/ exists owner name, _parse_repo_info repo_url = (Some owner, Some name).
Proof.
  destruct repo_url as [s|]; [|now left].
  destruct (parse_cases s) as [[_ E]|(o & n & E & _)]; eauto.
Qed.

(** C9. [_parse_repo_info] is total; it returns [(None, None)] on [None],
    on the empty string and whenever none of the three patterns matches the
    stripped input, and never one of owner and name without the other.
    [_sanitize_path] always returns its pair: a rejection is the error
    message of the pair, with the empty path, not an exception. *)
Theorem failures_are_results :
  _parse_repo_info None = (None, None)
  /\ _parse_repo_info (Some "") = (None, None)
  /\ (forall s, matching_patterns (Str.strip s) = [] ->
                _parse_repo_info (Some s) = (None, None))
  /\ (forall repo_url,
         _parse_repo_info repo_url = (None, None)
         \/ exists owner name,
             _parse_repo_info repo_url = (Some owner, Some name))
  /\ (forall cwd target base,
         exists path err,
           _sanitize_path cwd target base = Return (path, err)
           /\ (err <> None -> path = "")).
Proof.
  split; [reflexivity|]. split; [reflexivity|]. split; [|split].
  - intros s H. destruct (parse_cases s) as [[_ E]|(o & n & _ & _ & _ & N)];
      [exact E | now elim N].
  - apply parse_all_or_nothing.
  - intros cwd target base.
    destruct (sanitize_path_returns cwd target base) as (path & err & E).
    exists path, err. split; [exact E|]. intro Herr.
    unfold _sanitize_path in E.
    destruct (posixpath.isabs target); [now inversion E|].
    destruct (posixpath.commonpath _) as [common|[msg|]];
      [|now inversion E|discriminate].
    destruct (negb (common =? _)); [now inversion E|].
    destruct (negb _); inversion E; subst; auto. now elim Herr.
Qed.

Lemma failures_are_results_witness :
  _parse_repo_info (Some "  not a repository ") = (None, None).
Proof.
  apply (proj1 (proj2 (proj2 failures_are_results))).
  vm_compute. reflexivity.
Defined.

Lemma split_fields (c : ascii) (s : string) :
  Forall (fun f => count c f = 0) (Str.split c s).
Proof.
  induction s as [|x s IH]; simpl; [repeat constructor|].
  destruct (Ascii.eqb x c) eqn:E; [now constructor|].
  destruct (Str.split c s) as [|f fs]; [repeat constructor; simpl; now rewrite E|].
  inversion IH; subst. constructor; [simpl; now rewrite E | assumption].
Qed.

Lemma split_no_sep (c : ascii) (s : string) :
  count c s = 0 -> Str.split c s = [s].
Proof.
  induction s as [|x s IH]; simpl; [reflexivity|].
  destruct (Ascii.eqb x c); [discriminate|]. simpl. intro H.
  now rewrite IH.
Qed.

Lemma split_concat (comps : list string) :
  Forall (fun f => count "/" f = 0) comps -> comps <> [] ->
  Str.split "/" (String.concat "/" comps) = comps.
Proof.
  induction comps as [|x [|y r] IH]; intros H N; [now elim N| |].
  - inversion H; subst. now apply split_no_sep.
  - inversion H; subst.
    change (String.concat "/" (x :: y :: r))
      with (x ++ String "/" (String.concat "/" (y :: r))).
    rewrite split_app_sep, IH; [|assumption|discriminate].
    now rewrite split_no_sep.
Qed.

Lemma last_in (P : string -> Prop) (l : list string) (d : string) :
  Forall P l -> l <> [] -> P (last l d).
Proof.
  induction l as [|x [|y r] IH]; intros H N; [now elim N| |];
    inversion H; subst; [assumption|].
  apply IH; [assumption | discriminate].
Qed.

Lemma removelast_all (P : string -> Prop) (l : list string) :
  Forall P l -> Forall P (removelast l).
Proof.
  induction l as [|x [|y r] IH]; intro H; [constructor|constructor|].
  inversion H; subst. constructor; auto.
Qed.

(** Under a root, the components that [normpath] keeps are plain. *)
Lemma step_plain (n : nat) (acc : list string) (c : string) :
  n <> 0 -> count "/" c = 0 -> Forall plain acc ->
  Forall plain (posixpath.normpath_step n acc c).
Proof.
  intros Hn Hc Hacc. unfold posixpath.normpath_step.
  destruct ((c =? "") || (c =? ".")) eqn:K; [assumption|].
  apply Nat.eqb_neq in Hn. rewrite Hn. simpl andb. rewrite orb_false_r.
  destruct (String.eqb_spec c "..") as [->|Hdd]; simpl negb; simpl orb.
  - destruct acc as [|a acc]; [constructor|].
    cbn [posixpath.is_nil negb andb].
    destruct (String.eqb_spec (last (a :: acc) "") "..") as [E|_].
    + exfalso. assert (P : plain (last (a :: acc) ""))
        by (apply last_in; [assumption | discriminate]).
      destruct P as (_ & P & _). now elim P.
    + now apply removelast_all.
  - apply Forall_app. split; [assumption|]. constructor; [|constructor].
    apply orb_false_iff in K. destruct K as [K1 K2].
    unfold plain, posixpath.kept. now rewrite K1, K2.
Qed.

Lemma fold_plain (n : nat) (l acc : list string) :
  n <> 0 -> Forall (fun f => count "/" f = 0) l -> Forall plain acc ->
  Forall plain (fold_left (posixpath.normpath_step n) l acc).
Proof.
  intros Hn. revert acc. induction l as [|c l IH]; intros acc Hl Hacc; simpl;
    [assumption|].
  inversion Hl; subst. apply IH; [assumption|]. now apply step_plain.
Qed.

(** Plain components go through the loop of [normpath] as they are. *)
Lemma fold_keeps_plain (n : nat) (l acc : list string) :
  Forall plain l ->
  fold_left (posixpath.normpath_step n) l acc = (acc ++ l)%list.
Proof.
  revert acc. induction l as [|c l IH]; intros acc H; simpl;
    [now rewrite List.app_nil_r|].
  inversion H as [|? ? (K & Hdd & _) Hl]; subst.
  rewrite IH by assumption.
  unfold posixpath.normpath_step. unfold posixpath.kept in K.
  apply andb_true_iff in K. destruct K as [K1 K2].
  apply negb_true_iff in K1, K2. rewrite K1, K2. simpl orb.
  apply String.eqb_neq in Hdd. rewrite Hdd. simpl.
  now rewrite <- List.app_assoc.
Qed.

Lemma filter_plain (l : list string) :
  Forall plain l -> filter posixpath.kept l = l.
Proof.
  induction l as [|c l IH]; intro H; simpl; [reflexivity|].
  inversion H as [|? ? (K & _) Hl]; subst. rewrite K. now rewrite IH.
Qed.

Lemma common_loop_same (s1 : list string) :
  forall todo pre,
    posixpath.common_loop s1 (pre ++ todo) (List.length pre) todo = Return s1.
Proof.
  induction todo as [|c todo IH]; intro pre; simpl; [reflexivity|].
  rewrite nth_error_app_length. simpl. rewrite String.eqb_refl. simpl.
  specialize (IH (pre ++ [c])%list).
  rewrite <- List.app_assoc, List.length_app, Nat.add_1_r in IH. exact IH.
Qed.

Lemma plain_fields (comps : list string) :
  Forall plain comps -> Forall (fun f => count "/" f = 0) comps.
Proof. apply Forall_impl. now intros c (_ & _ & H). Qed.

(** A path made of a root and plain components starts with one slash. *)
Lemma concat_head (comps : list string) :
  Forall plain comps -> comps <> [] ->
  exists x t, String.concat "/" comps = String x t /\ Ascii.eqb "/" x = false.
Proof.
  intros H N. destruct comps as [|c r]; [now elim N|].
  inversion H as [|? ? (K & _ & C) _]; subst.
  destruct c as [|x c]; [discriminate K|].
  simpl in C.
  destruct (Ascii.eqb x "/") eqn:E; [discriminate C|].
  rewrite Ascii.eqb_sym in E.
  destruct r; simpl; eauto.
Qed.

Lemma initial_slashes_one (x : ascii) (t : string) :
  Ascii.eqb "/" x = false ->
  posixpath.initial_slashes (String "/" (String x t)) = 1.
Proof.
  intro E. unfold posixpath.initial_slashes, Str.startswith, posixpath.sep.
  cbn [Str.repeat String.append].
  now rewrite !prefix_cons, E, Ascii.eqb_refl, prefix_nil.
Qed.

(** What [normpath] makes of a path under a single root. *)
Lemma normpath_rooted (p : string) :
  posixpath.initial_slashes p = 1 ->
  exists comps,
    Forall plain comps
    /\ posixpath.normpath p = "/" ++ String.concat "/" comps.
Proof.
  intro H. exists (fold_left (posixpath.normpath_step 1) (Str.split "/" p) []).
  split.
  - apply fold_plain; [discriminate | apply split_fields | constructor].
  - unfold posixpath.normpath. destruct p as [|c p]; [discriminate H|].
    cbn [String.eqb]. rewrite H. reflexivity.
Qed.

Lemma split_root (s : string) :
  Str.split "/" (String "/" s) = "" :: Str.split "/" s.
Proof. reflexivity. Qed.

Lemma normpath_of_fields (p : string) (x : ascii) (t : string)
    (comps : list string) :
  p = String "/" (String x t) ->
  Ascii.eqb "/" x = false ->
  fold_left (posixpath.normpath_step 1) (Str.split "/" p) [] = comps ->
  posixpath.normpath p = "/" ++ String.concat "/" comps.
Proof.
  intros P X F. subst p. unfold posixpath.normpath. cbv zeta.
  cbn [String.eqb]. rewrite (@initial_slashes_one x t X), F. reflexivity.
Qed.

(** A rooted path of plain components is its own normal form, with or
    without a last empty or [.] component. *)
Lemma normpath_plain (comps : list string) (last : string) :
  Forall plain comps -> comps <> [] -> last = "" \/ last = "." ->
  posixpath.normpath ("/" ++ String.concat "/" comps)
  = "/" ++ String.concat "/" comps
  /\ posixpath.normpath (("/" ++ String.concat "/" comps) ++ "/" ++ last)
     = "/" ++ String.concat "/" comps.
Proof.
  intros H N Hl.
  pose proof (split_concat (plain_fields H) N) as S.
  destruct (concat_head H N) as (x & t & E & X).
  split.
  - apply normpath_of_fields with (x := x) (t := t);
      [cbn [String.append]; rewrite E; reflexivity | exact X |].
    cbn [String.append]. rewrite split_root, S. cbn [fold_left].
    change (posixpath.normpath_step 1 [] "") with (@nil string).
    now rewrite fold_keeps_plain.
  - apply normpath_of_fields with (x := x) (t := t ++ String "/" last);
      [cbn [String.append]; rewrite E; reflexivity | exact X |].
    change (("/" ++ String.concat "/" comps) ++ "/" ++ last)
      with (String "/" (String.concat "/" comps ++ String "/" last)).
    rewrite split_root, split_app_sep, S. cbn [fold_left].
    change (posixpath.normpath_step 1 [] "") with (@nil string).
    rewrite fold_left_app, (@fold_keeps_plain 1 comps [] H).
    cbn [List.app]. destruct Hl as [->| ->]; reflexivity.
Qed.

Lemma isabs_root (s : string) : posixpath.isabs ("/" ++ s) = true.
Proof.
  unfold posixpath.isabs, Str.startswith, posixpath.sep.
  cbn [String.append]. now rewrite prefix_cons, Ascii.eqb_refl, prefix_nil.
Qed.

Lemma rooted_fields (comps : list string) :
  Forall plain comps ->
  filter posixpath.kept (Str.split "/" ("/" ++ String.concat "/" comps))
  = comps.
Proof.
  intro H. destruct comps as [|c r]; [reflexivity|].
  cbn [String.append]. rewrite split_root.
  rewrite split_concat by (auto using plain_fields; discriminate).
  change (filter posixpath.kept ("" :: c :: r))
    with (filter posixpath.kept (c :: r)).
  now apply filter_plain.
Qed.

(** A rooted path of plain components does not end with a separator. *)
Lemma rooted_no_trailing_sep (comps : list string) :
  Forall plain comps -> comps <> [] ->
  Str.endswith ("/" ++ String.concat "/" comps) "/" = false.
Proof.
  intros H N.
  destruct (Str.endswith ("/" ++ String.concat "/" comps) "/") eqn:E;
    [exfalso | reflexivity].
  apply endswith_inv in E. destruct E as [s0 E].
  apply (f_equal (Str.split "/")) in E.
  rewrite split_app_sep in E. cbn [String.append] in E.
  rewrite split_root, split_concat in E by (auto using plain_fields).
  apply (f_equal (fun l => last l "x")) in E.
  cbn [Str.split] in E. rewrite last_last in E.
  assert (P : plain (last ("" :: comps) "x")).
  { destruct comps as [|c r]; [now elim N|].
    change (last ("" :: c :: r) "x") with (last (c :: r) "x").
    apply last_in; [assumption | discriminate]. }
  rewrite E in P. destruct P as (K & _). discriminate K.
Qed.

(** [commonpath] of a normal rooted path and itself is that path. *)
Lemma commonpath_same (comps : list string) :
  Forall plain comps ->
  posixpath.commonpath ["/" ++ String.concat "/" comps;
                        "/" ++ String.concat "/" comps]
  = Return ("/" ++ String.concat "/" comps).
Proof.
  intro H. unfold posixpath.commonpath.
  cbn [List.forallb]. rewrite eqb_reflx. cbn [andb negb map].
  rewrite (rooted_fields H).
  unfold posixpath.py_min, posixpath.py_max. cbn [fold_left].
  pose proof (common_loop_same comps comps []) as L.
  cbn [List.app List.length] in L.
  destruct (posixpath.list_lt comps comps);
    destruct (posixpath.list_gt comps comps);
    rewrite L; cbn [bind]; now rewrite isabs_root.
Qed.

Lemma single_root (base : string) :
  posixpath.isabs base = true ->
  (Str.startswith base "//" = true -> Str.startswith base "///" = true) ->
  posixpath.initial_slashes base = 1.
Proof.
  intros A H. unfold posixpath.initial_slashes.
  unfold posixpath.isabs in A. rewrite A.
  cbn [Str.repeat String.append posixpath.sep].
  destruct (Str.startswith base "//"); [|reflexivity].
  now rewrite H.
Qed.

(** The empty target and [.] under a rooted normal base. *)
Lemma sanitize_here (cwd base t : string) :
  posixpath.isabs base = true ->
  (Str.startswith base "//" = true -> Str.startswith base "///" = true) ->
  t = "" \/ t = "." ->
  _sanitize_path cwd t base = Return (posixpath.normpath base, None).
Proof.
  intros A H Ht.
  destruct (@normpath_rooted base (@single_root base A H)) as (comps & P & E).
  unfold _sanitize_path, posixpath.abspath. rewrite A, E.
  set (b := "/" ++ String.concat "/" comps) in *.
  assert (T : posixpath.isabs t = false)
    by (destruct Ht as [->| ->]; reflexivity).
  rewrite T.
  assert (F : posixpath.normpath (posixpath.join b t) = b).
  { destruct comps as [|c r].
    - destruct Ht as [->| ->]; reflexivity.
    - assert (N : c :: r <> []) by discriminate.
      unfold posixpath.join. unfold posixpath.isabs in T. rewrite T.
      unfold posixpath.sep.
      rewrite (rooted_no_trailing_sep P N : Str.endswith b "/" = false).
      change (b =? "") with false. cbn [orb].
      apply (normpath_plain P N Ht). }
  rewrite F. unfold b. rewrite (commonpath_same P). fold b.
  rewrite String.eqb_refl. reflexivity.
Qed.

(** C10, as the code has it.  Under an absolute base that does not begin
    with exactly two slashes, the empty target is accepted and confined to
    the base directory in its normal form, as [.] is. *)
Theorem empty_target_is_base (cwd base : string) :
  posixpath.isabs base = true ->
  (Str.startswith base "//" = true -> Str.startswith base "///" = true) ->
  _sanitize_path cwd "" base = Return (posixpath.normpath base, None)
  /\ _sanitize_path cwd "" base = _sanitize_path cwd "." base.
Proof.
  intros A H. rewrite !(@sanitize_here cwd base) by auto. auto.
Qed.

Lemma empty_target_is_base_witness :
  _sanitize_path "/srv" "" "/workspace/./repos/"
  = Return (posixpath.normpath "/workspace/./repos/", None)
  /\ _sanitize_path "/srv" "" "/workspace/./repos/"
     = _sanitize_path "/srv" "." "/workspace/./repos/".
Proof.
  apply empty_target_is_base; [reflexivity | discriminate].
Defined.

(** C10 fails under a base that begins with two slashes: [normpath] keeps
    both and [commonpath] keeps one, so every target is rejected. *)
Lemma empty_target_double_slash :
  ~ (forall cwd base : string,
        posixpath.isabs base = true ->
        exists path, _sanitize_path cwd "" base = Return (path, None)).
Proof.
  intro H. destruct (H "/" "//workspace" eq_refl) as [path E].
  vm_compute in E. discriminate E.
Qed.

(** ** More on [_parse_repo_info] *)

Lemma lstrip_spaces (ws s : string) :
  Str.forallb Str.isspace ws = true -> Str.lstrip (ws ++ s) = Str.lstrip s.
Proof.
  induction ws as [|c ws IH]; simpl; [reflexivity|].
  intro H. apply andb_true_iff in H. destruct H as [Hc Hw].
  rewrite Hc. now apply IH.
Qed.

Lemma rstrip_all_spaces (ws : string) :
  Str.forallb Str.isspace ws = true -> Str.rstrip ws = "".
Proof.
  induction ws as [|c ws IH]; simpl; [reflexivity|].
  intro H. apply andb_true_iff in H. destruct H as [Hc Hw].
  now rewrite IH, Hc.
Qed.

Lemma rstrip_spaces (s ws : string) :
  Str.forallb Str.isspace ws = true -> Str.rstrip (s ++ ws) = Str.rstrip s.
Proof.
  intro H. induction s as [|c s IH]; simpl.
  - now apply rstrip_all_spaces.
  - now rewrite IH.
Qed.

Lemma lstrip_before_spaces (s ws : string) :
  Str.forallb Str.isspace ws = true ->
  exists ws', Str.forallb Str.isspace ws' = true
              /\ Str.lstrip (s ++ ws) = Str.lstrip s ++ ws'.
Proof.
  intro H. induction s as [|c s IH]; simpl.
  - exists "". split; [reflexivity|].
    rewrite <- (app_nil_r ws). rewrite lstrip_spaces by assumption.
    reflexivity.
  - destruct (Str.isspace c); [exact IH|]. now exists ws.
Qed.

(** White space around the subject does not count. *)
Lemma strip_spaces (ws1 s ws2 : string) :
  Str.forallb Str.isspace ws1 = true -> Str.forallb Str.isspace ws2 = true ->
  Str.strip (ws1 ++ s ++ ws2) = Str.strip s.
Proof.
  intros H1 H2. unfold Str.strip. rewrite lstrip_spaces by assumption.
  destruct (@lstrip_before_spaces s ws2 H2) as (ws' & H' & ->).
  now apply rstrip_spaces.
Qed.



Lemma rstrip_token (w : string) :
  Str.forallb (in_set repo_chars) w = true -> Str.rstrip w = w.
Proof.
  induction w as [|c w IH]; simpl; [reflexivity|].
  intro H. apply andb_true_iff in H. destruct H as [Hc Hw].
  rewrite (IH Hw). destruct w; [|reflexivity].
  now rewrite (repo_char_not_space _ Hc).
Qed.

Lemma strip_token_path (o w : string) :
  token o -> token w -> Str.strip (o ++ "/" ++ w) = o ++ "/" ++ w.
Proof.
  intros To [Nw Hw]. apply strip_id; [now apply lstrip_token|].
  apply rstrip_app_id; [|now apply app_not_nil_r].
  apply rstrip_app_id; [now apply rstrip_token | assumption].
Qed.

(** The bare reference of two tokens gives them back. *)
Lemma parse_bare (o w : string) :
  token o -> token w ->
  _parse_repo_info (Some (o ++ "/" ++ w)) = (Some o, Some w).
Proof.
  intros To Tw. unfold _parse_repo_info. rewrite strip_token_path by assumption.
  pose proof (@token_count "/" o eq_refl To) as C1.
  pose proof (@token_count "/" w eq_refl Tw) as C2.
  pose proof (@token_count "@" o eq_refl To) as C3.
  pose proof (@token_count "@" w eq_refl Tw) as C4.
  rewrite url_no_match, ssh_no_match.
  - now rewrite bare_match.
  - rewrite !count_app, C3, C4. reflexivity.
  - left. rewrite !count_app, C1, C2. simpl. lia.
Qed.

(** X2. The canonical name [owner/repo] that the tools build from an
    accepted reference parses back to the same owner and name. *)
Theorem canonical_name_round_trip (repo_url : option string) (owner name : string) :
  _parse_repo_info repo_url = (Some owner, Some name) ->
  _parse_repo_info (Some (owner ++ "/" ++ name)) = (Some owner, Some name).
Proof.
  destruct repo_url as [s|]; [|discriminate].
  destruct (parse_cases s) as [[_ E]|(o & n & E & To & Tn & _)];
    rewrite E; intro H; inversion H; subst.
  now apply parse_bare.
Qed.

Lemma canonical_name_round_trip_witness :
  _parse_repo_info (Some ("my-org" ++ "/" ++ "tool.kit"))
  = (Some "my-org", Some "tool.kit").
Proof.
  apply (@canonical_name_round_trip
           (Some " https://www.github.com/my-org/tool.kit.git/ ")).
  vm_compute. reflexivity.
Defined.

Lemma app_sep_inj (a b : string) : a ++ "/" = b ++ "/" -> a = b.
Proof.
  revert b. induction a as [|x a IH]; intros [|y b] H; simpl in H.
  - reflexivity.
  - injection H as _ H. destruct b; discriminate H.
  - injection H as _ H. destruct a; discriminate H.
  - injection H as -> H. f_equal. now apply IH.
Qed.

(** What follows a proper prefix of such a name cannot be the end of an
    HTTPS reference. *)
Lemma url_tail_fails_plain (p q slash : string) pos caps :
  p <> "" -> token q -> no_git_suffix (p ++ q) -> In slash [""; "/"] ->
  run url_tail pos (q ++ slash) caps done = None.
Proof.
  intros Np Tq Hn Hs.
  destruct (run url_tail pos (q ++ slash) caps done) eqn:E;
    [exfalso | reflexivity].
  apply run_sound in E. destruct E as (w & rest & caps' & Heq & Hsem & _).
  unfold url_tail in Hsem. cbn [cat sem] in Hsem.
  pose proof (token_length Tq) as Hlen.
  pose proof (f_equal String.length Heq) as E1.
  pose proof (f_equal (count "/") Heq) as E2.
  pose proof (f_equal (count LF) Heq) as E3.
  rewrite !length_app, !count_app in *.
  rewrite (@token_count "/" q), (@token_count LF q) in * by (auto; reflexivity).
  break_all; split_in; subst; simpl in *; try lia;
    rewrite ?app_nil_r in Heq;
    try change ".git/" with (".git" ++ "/") in Heq;
    try (apply app_sep_inj in Heq); subst;
    now apply (Hn p Np).
Qed.

Lemma ssh_tail_fails_plain (p q : string) pos caps :
  p <> "" -> token q -> no_git_suffix (p ++ q) ->
  run ssh_tail pos q caps done = None.
Proof.
  intros Np Tq Hn.
  destruct (run ssh_tail pos q caps done) eqn:E; [exfalso | reflexivity].
  apply run_sound in E. destruct E as (w & rest & caps' & Heq & Hsem & _).
  unfold ssh_tail in Hsem. cbn [cat sem] in Hsem.
  pose proof (token_length Tq) as Hlen.
  pose proof (f_equal String.length Heq) as E1.
  pose proof (f_equal (count LF) Heq) as E3.
  rewrite !length_app, !count_app in *.
  rewrite (@token_count LF q) in * by (auto; reflexivity).
  break_all; split_in; subst; simpl in *; try lia;
    now apply (Hn p Np).
Qed.

Lemma url_rest_plain (o n slash : string) pos :
  token o -> token n -> no_git_suffix n -> In slash [""; "/"] ->
  run (cat [Group 1 (Plus true repo_chars); Lit "/";
            Group 2 (Plus false repo_chars); url_tail])
      pos (o ++ "/" ++ n ++ slash) [] done
  = Some [(2, n); (1, o)].
Proof.
  intros [No Ho] [Nn Hn] Hg Hs. cbn [cat]. rewrite run_seq.
  apply run_group_greedy; auto using slash_stops.
  rewrite run_seq. apply run_lit. rewrite run_seq.
  apply run_group_lazy; auto.
  - intros w1 w2 E N1 N2. subst n.
    apply url_tail_fails_plain with (p := w1); auto.
    now apply token_app_r with (w1 := w1).
  - simpl in Hs. destruct Hs as [<-|[<-|[]]]; reflexivity.
Qed.

Lemma ssh_rest_plain (o n : string) pos :
  token o -> token n -> no_git_suffix n ->
  run (cat [Group 1 (Plus true repo_chars); Lit "/";
            Group 2 (Plus false repo_chars); ssh_tail])
      pos (o ++ "/" ++ n ++ "") [] done
  = Some [(2, n); (1, o)].
Proof.
  intros [No Ho] [Nn Hn] Hg. cbn [cat]. rewrite run_seq.
  apply run_group_greedy; auto using slash_stops.
  rewrite run_seq. apply run_lit. rewrite run_seq.
  apply run_group_lazy; auto.
  intros w1 w2 E N1 N2. subst n. rewrite app_nil_r.
  apply ssh_tail_fails_plain with (p := w1); auto.
  now apply token_app_r with (w1 := w1).
Qed.

Lemma url_match_plain (scheme www o n slash : string) :
  In scheme [""; "http://"; "https://"] -> In www [""; "www."] ->
  token o -> token n -> no_git_suffix n -> In slash [""; "/"] ->
  match_ GITHUB_URL_PATTERN
    (scheme ++ www ++ "github.com/" ++ o ++ "/" ++ n ++ slash)
  = Some [(2, n); (1, o)].
Proof.
  intros Hsch Hwww To Tn Hg Hsl.
  pose proof (fun pos => @url_rest_plain o n slash pos To Tn Hg Hsl) as HR.
  unfold match_, GITHUB_URL_PATTERN.
  change (cat [Bos; ?a; ?b; ?c; ?d; ?e; ?f; ?g; ?h; ?i])
    with (Seq Bos (Seq a (Seq b (Seq c (cat [d; e; f; url_tail]))))).
  fold done.
  set (R := cat _) in *. set (S := o ++ _) in *. clearbody R S.
  simpl in Hsch, Hwww.
  destruct Hsch as [<-|[<-|[<-|[]]]]; destruct Hwww as [<-|[<-|[]]];
    cbn; rewrite ?prefix_nil; cbn; rewrite ?HR; reflexivity.
Qed.

Lemma ssh_match_plain (o n : string) :
  token o -> token n -> no_git_suffix n ->
  match_ GITHUB_SSH_PATTERN ("git@github.com:" ++ o ++ "/" ++ n)
  = Some [(2, n); (1, o)].
Proof.
  intros To Tn Hg.
  replace ("git@github.com:" ++ o ++ "/" ++ n)
    with ("git@github.com:" ++ o ++ "/" ++ n ++ "")
    by now rewrite app_nil_r.
  pose proof (fun pos => @ssh_rest_plain o n pos To Tn Hg) as HR.
  unfold match_, GITHUB_SSH_PATTERN.
  change (cat [Bos; ?a; ?b; ?c; ?d; ?e; ?f])
    with (Seq Bos (Seq a (cat [b; c; d; ssh_tail]))).
  fold done.
  set (R := cat _) in *. set (S := o ++ _) in *. clearbody R S.
  cbn; rewrite ?prefix_nil; cbn; rewrite ?HR; reflexivity.
Qed.

Lemma rstrip_token_slash (a n slash : string) :
  token n -> In slash [""; "/"] ->
  Str.rstrip (a ++ n ++ slash) = a ++ n ++ slash.
Proof.
  intros [Nn Hn] Hs. simpl in Hs. destruct Hs as [<-|[<-|[]]].
  - rewrite app_nil_r. apply rstrip_app_id; [now apply rstrip_token | assumption].
  - apply rstrip_app_id; [|now apply app_not_nil_r].
    apply rstrip_app_id; [reflexivity | discriminate].
Qed.

(** X3. For every owner and name of the grammar, when the name is not a
    token followed by [.git], the HTTPS references (with or without scheme,
    [www.] and last slash) and the SSH reference give the owner and the
    whole name. *)
Theorem plain_name_by_shape (owner name : string) :
  token owner -> token name -> no_git_suffix name ->
  (forall scheme www slash,
      In scheme [""; "http://"; "https://"] -> In www [""; "www."] ->
      In slash [""; "/"] ->
      _parse_repo_info
        (Some (scheme ++ www ++ "github.com/" ++ owner ++ "/" ++ name ++ slash))
      = (Some owner, Some name))
  /\ _parse_repo_info (Some ("git@github.com:" ++ owner ++ "/" ++ name))
     = (Some owner, Some name).
Proof.
  intros To Tn Hg. split.
  - intros scheme www slash Hsch Hwww Hsl. unfold _parse_repo_info.
    rewrite strip_id.
    + now rewrite url_match_plain.
    + simpl in Hsch, Hwww.
      destruct Hsch as [<-|[<-|[<-|[]]]]; destruct Hwww as [<-|[<-|[]]];
        reflexivity.
    + rewrite <- !app_assoc. rewrite (app_assoc _ name slash).
      now apply rstrip_token_slash.
  - unfold _parse_repo_info.
    rewrite strip_id; [|reflexivity|].
    + rewrite url_no_match.
      * now rewrite ssh_match_plain.
      * right. simpl. lia.
    + destruct Tn as [Nn Hn].
      repeat (apply rstrip_app_id; [|now repeat apply app_not_nil_r]).
      now apply rstrip_token.
Qed.

Lemma plain_name_by_shape_witness :
  token "o" /\ token "r.github" /\ no_git_suffix "r.github"
  /\ _parse_repo_info (Some ("http://" ++ "" ++ "github.com/" ++ "o" ++ "/"
                             ++ "r.github" ++ "/"))
     = (Some "o", Some "r.github").
Proof.
  assert (T1 : token "o") by (split; [discriminate | reflexivity]).
  assert (T2 : token "r.github") by (split; [discriminate | reflexivity]).
  assert (G : no_git_suffix "r.github").
  { intros p Np E.
    destruct p as [|? p]; [now elim Np|]. simpl in E. injection E as _ E.
    repeat (destruct p as [|? p]; simpl in E;
            [discriminate E | injection E as _ E]).
    destruct p; discriminate E. }
  split; [exact T1|]. split; [exact T2|]. split; [exact G|].
  apply (proj1 (plain_name_by_shape T1 T2 G)); simpl; auto.
Defined.

(** ** More on [_sanitize_path] *)

Lemma isabs_cons (s : string) :
  posixpath.isabs s = true -> exists r, s = String "/" r.
Proof.
  unfold posixpath.isabs, Str.startswith, posixpath.sep.
  destruct s as [|c r]; [discriminate|].
  rewrite prefix_cons. intro H. apply andb_true_iff in H. destruct H as [H _].
  apply Ascii.eqb_eq in H. subst c. now exists r.
Qed.

Lemma isabs_app (a b : string) :
  posixpath.isabs a = true -> posixpath.isabs (a ++ b) = true.
Proof.
  intro H. destruct (@isabs_cons a H) as [r ->]. apply (isabs_root (r ++ b)).
Qed.

Lemma join_isabs (a b : string) :
  posixpath.isabs a = true -> posixpath.isabs (posixpath.join a b) = true.
Proof.
  intro H. unfold posixpath.join.
  destruct (Str.startswith b posixpath.sep) eqn:B; [exact B|].
  destruct ((a =? "") || Str.endswith a posixpath.sep); now apply isabs_app.
Qed.

Lemma normpath_isabs (p : string) :
  posixpath.isabs p = true -> posixpath.isabs (posixpath.normpath p) = true.
Proof.
  intro H. destruct (@isabs_cons p H) as [r ->].
  unfold posixpath.normpath, posixpath.initial_slashes. cbn [String.eqb].
  unfold posixpath.isabs in H. rewrite H.
  destruct (_ && _); cbn [Nat.eqb Str.repeat]; apply isabs_root.
Qed.

(** The canonical base is absolute as soon as the working directory is. *)
Lemma abspath_isabs (cwd path : string) :
  posixpath.isabs cwd = true ->
  posixpath.isabs (posixpath.abspath cwd path) = true.
Proof.
  intro H. unfold posixpath.abspath. apply normpath_isabs.
  destruct (posixpath.isabs path) eqn:P; [exact P | now apply join_isabs].
Qed.

Lemma plain_segment (c : string) : plain c -> segment c.
Proof. intros (K & _ & C). now split. Qed.

Lemma kept_fields (s : string) :
  Forall segment (filter posixpath.kept (Str.split "/" s)).
Proof.
  apply Forall_forall. intros c Hc. apply filter_In in Hc.
  destruct Hc as [Hin K]. split; [exact K|].
  pose proof (split_fields "/" s) as F. rewrite Forall_forall in F. now apply F.
Qed.

Lemma firstn_all (P : string -> Prop) (l : list string) (n : nat) :
  Forall P l -> Forall P (firstn n l).
Proof.
  revert n. induction l as [|x l IH]; intros [|n] H; simpl; try constructor;
    inversion H; subst; auto.
Qed.

Lemma common_loop_sub (P : string -> Prop) (s1 s2 : list string) :
  Forall P s1 ->
  forall todo i r, posixpath.common_loop s1 s2 i todo = Return r -> Forall P r.
Proof.
  intros H. induction todo as [|c todo IH]; intros i r E; simpl in E.
  - injection E as <-. exact H.
  - destruct (nth_error s2 i) as [d|]; [|discriminate].
    destruct (negb (c =? d)).
    + injection E as <-. now apply firstn_all.
    + now apply IH in E.
Qed.

(** What [commonpath] returns for absolute paths: a slash, then components
    that are not empty and not [.], one slash between two. *)
Lemma commonpath_shape (a f common : string) :
  posixpath.commonpath [a; f] = Return common ->
  posixpath.isabs a = true ->
  exists l, Forall segment l /\ common = "/" ++ String.concat "/" l.
Proof.
  unfold posixpath.commonpath. intros E A.
  destruct (negb _); [discriminate|]. cbn [map] in E.
  set (x := filter posixpath.kept (Str.split "/" a)) in *.
  set (y := filter posixpath.kept (Str.split "/" f)) in *.
  assert (M : Forall segment (posixpath.py_min x [y])).
  { unfold posixpath.py_min. cbn [fold_left].
    destruct (posixpath.list_lt y x); apply kept_fields. }
  destruct (posixpath.common_loop _ _ 0 _) as [r|e] eqn:L; [|discriminate].
  pose proof (@common_loop_sub segment _ _ M _ _ _ L) as R.
  cbn [bind] in E. rewrite A in E.
  injection E as <-. now exists r.
Qed.

Lemma segment_head (l : list string) :
  Forall segment l -> l <> [] ->
  exists x t, String.concat "/" l = String x t /\ Ascii.eqb "/" x = false.
Proof.
  intros H N. destruct l as [|c r]; [now elim N|].
  inversion H as [|? ? (K & C) _]; subst.
  destruct c as [|x c]; [discriminate K|].
  simpl in C.
  destruct (Ascii.eqb x "/") eqn:E; [discriminate C|].
  rewrite Ascii.eqb_sym in E.
  destruct r; simpl; eauto.
Qed.

Lemma relative_head (t : string) :
  posixpath.isabs t = false ->
  t = "" \/ exists x r, t = String x r /\ Ascii.eqb "/" x = false.
Proof.
  unfold posixpath.isabs, Str.startswith, posixpath.sep.
  destruct t as [|x r]; [now left|]. rewrite prefix_cons, prefix_nil, andb_true_r.
  intro H. right. eauto.
Qed.

(** A relative target joined to a base of that shape has one leading
    slash. *)
Lemma join_single_root (l : list string) (t : string) :
  Forall segment l -> posixpath.isabs t = false ->
  posixpath.initial_slashes
    (posixpath.join ("/" ++ String.concat "/" l) t) = 1.
Proof.
  intros H T. unfold posixpath.join.
  unfold posixpath.isabs in T. rewrite T.
  destruct l as [|c r].
  - cbn. destruct (@relative_head t T) as [->|(x & s & -> & X)];
      [reflexivity | now apply initial_slashes_one].
  - destruct (@segment_head (c :: r) H) as (x & s & E & X); [discriminate|].
    rewrite E. cbn [String.append String.eqb orb].
    destruct (Str.endswith _ _); cbn [String.append];
      now apply initial_slashes_one.
Qed.

(** X4. Under an absolute working directory, an accepted path is absolute
    and normal: one leading slash, then components that are not empty and
    are neither [.] nor [..], with one slash between two.  No [..] is left
    in what [_sanitize_path] hands over. *)
Theorem accepted_path_is_normal (cwd target base path : string) :
  posixpath.isabs cwd = true ->
  _sanitize_path cwd target base = Return (path, None) ->
  exists comps,
    Forall plain comps /\ path = "/" ++ String.concat "/" comps.
Proof.
  intros Hcwd H. unfold _sanitize_path in H.
  destruct (posixpath.isabs target) eqn:T; [discriminate|].
  pose proof (@abspath_isabs cwd base Hcwd) as A.
  set (b := posixpath.abspath cwd base) in *.
  destruct (posixpath.commonpath _) as [common|[msg|]] eqn:C;
    [|discriminate..].
  destruct (String.eqb_spec common b) as [->|]; [|discriminate]. simpl in H.
  destruct (negb _); [discriminate|]. injection H as <-.
  destruct (@commonpath_shape _ _ _ C A) as (l & Hl & E).
  apply normpath_rooted. rewrite E. now apply join_single_root.
Qed.

Lemma accepted_path_is_normal_witness :
  exists comps,
    Forall plain comps /\ "/workspace/b" = "/" ++ String.concat "/" comps.
Proof.
  apply (@accepted_path_is_normal "/srv" "a/.././/b" "/workspace/"
           "/workspace/b"); reflexivity.
Defined.

Lemma concat_app (l1 l2 : list string) :
  l1 <> [] -> l2 <> [] ->
  String.concat "/" (l1 ++ l2)
  = String.concat "/" l1 ++ "/" ++ String.concat "/" l2.
Proof.
  intros N1 N2. induction l1 as [|x [|y r] IH]; [now elim N1| |].
  - destruct l2; [now elim N2 | reflexivity].
  - change (String.concat "/" ((x :: y :: r) ++ l2))
      with (x ++ "/" ++ String.concat "/" ((y :: r) ++ l2)).
    rewrite IH by discriminate.
    change (String.concat "/" (x :: y :: r))
      with (x ++ "/" ++ String.concat "/" (y :: r)).
    now rewrite !app_assoc.
Qed.

Lemma list_lt_extension (l e : list string) :
  posixpath.list_lt (l ++ e) l = false.
Proof.
  induction l as [|x l IH]; simpl; [now destruct e|].
  now rewrite String.eqb_refl.
Qed.

Lemma list_gt_extension (l e : list string) :
  e <> [] -> posixpath.list_gt (l ++ e) l = true.
Proof.
  intro N. induction l as [|x l IH]; simpl.
  - destruct e; [now elim N | reflexivity].
  - now rewrite String.eqb_refl.
Qed.

Lemma common_loop_prefix (s1 extra : list string) :
  forall todo pre,
    posixpath.common_loop s1 (pre ++ todo ++ extra) (List.length pre) todo
    = Return s1.
Proof.
  induction todo as [|c todo IH]; intro pre; simpl; [reflexivity|].
  rewrite nth_error_app_length. simpl. rewrite String.eqb_refl. simpl.
  specialize (IH (pre ++ [c])%list).
  rewrite <- List.app_assoc, List.length_app, Nat.add_1_r in IH. exact IH.
Qed.

(** [commonpath] of a normal rooted path and a path below it. *)
Lemma commonpath_below (comps ts : list string) :
  Forall plain comps -> Forall plain ts -> ts <> [] ->
  posixpath.commonpath ["/" ++ String.concat "/" comps;
                        "/" ++ String.concat "/" (comps ++ ts)]
  = Return ("/" ++ String.concat "/" comps).
Proof.
  intros H Ht N. unfold posixpath.commonpath.
  cbn [List.forallb]. rewrite !isabs_root. cbn [Bool.eqb andb negb map].
  rewrite (rooted_fields H).
  rewrite (@rooted_fields (comps ++ ts)) by (apply Forall_app; now split).
  unfold posixpath.py_min, posixpath.py_max. cbn [fold_left].
  rewrite list_lt_extension, (list_gt_extension comps N).
  pose proof (common_loop_prefix comps ts comps []) as L.
  cbn [List.app List.length] in L. rewrite L. reflexivity.
Qed.

Lemma plain_path_relative (ts : list string) :
  Forall plain ts -> ts <> [] ->
  posixpath.isabs (String.concat "/" ts) = false.
Proof.
  intros H N. destruct (concat_head H N) as (x & t & -> & X).
  unfold posixpath.isabs, Str.startswith, posixpath.sep.
  now rewrite prefix_cons, X.
Qed.

(** Where the base and a target of plain components join. *)
Lemma join_plain (comps ts : list string) :
  Forall plain comps -> Forall plain ts -> ts <> [] ->
  posixpath.join ("/" ++ String.concat "/" comps) (String.concat "/" ts)
  = "/" ++ String.concat "/" (comps ++ ts).
Proof.
  intros H Ht N. unfold posixpath.join.
  pose proof (plain_path_relative Ht N) as T.
  unfold posixpath.isabs in T. rewrite T.
  destruct comps as [|c r]; [reflexivity|].
  assert (Nc : c :: r <> []) by discriminate.
  unfold posixpath.sep. rewrite (rooted_no_trailing_sep H Nc).
  cbn [String.append String.eqb orb].
  rewrite (concat_app Nc N). reflexivity.
Qed.

(** A target of plain components under a base in normal form: accepted
    below the base, unless the base is the root. *)
Lemma sanitize_plain_target (cwd base : string) (comps ts : list string) :
  posixpath.isabs base = true ->
  posixpath.normpath base = "/" ++ String.concat "/" comps ->
  Forall plain comps -> Forall plain ts -> ts <> [] ->
  _sanitize_path cwd (String.concat "/" ts) base
  = match comps with
    | [] => Return ("", Some (traversal_msg "/"))
    | _ :: _ =>
        Return (posixpath.normpath base ++ "/" ++ String.concat "/" ts, None)
    end.
Proof.
  intros A E H Ht N.
  unfold _sanitize_path, posixpath.abspath.
  rewrite (plain_path_relative Ht N), A, E, (join_plain H Ht N).
  assert (P : Forall plain (comps ++ ts)) by (apply Forall_app; now split).
  assert (Np : (comps ++ ts)%list <> [])
    by (intro X; apply app_eq_nil in X; destruct X; contradiction).
  rewrite (proj1 (normpath_plain P Np (or_introl eq_refl))).
  rewrite (commonpath_below H Ht N). rewrite String.eqb_refl. cbn [negb].
  destruct comps as [|c r].
  - cbn [List.app String.concat String.append].
    destruct (concat_head Ht N) as (x & t & -> & X).
    cbn [String.eqb]. unfold Str.startswith.
    cbn [String.append posixpath.sep].
    unfold posixpath.sep. rewrite !prefix_cons, X, Ascii.eqb_refl. reflexivity.
  - assert (Nc : c :: r <> []) by discriminate.
    rewrite (concat_app Nc N).
    replace ("/" ++ String.concat "/" (c :: r) ++ "/" ++ String.concat "/" ts)
      with ((("/" ++ String.concat "/" (c :: r)) ++ posixpath.sep)
              ++ String.concat "/" ts)
      by (unfold posixpath.sep; now rewrite !app_assoc).
    rewrite startswith_app, orb_true_r. cbn [negb].
    unfold posixpath.sep. now rewrite !app_assoc.
Qed.

Lemma root_normpath (base : string) :
  posixpath.isabs base = true -> posixpath.normpath base = "/" ->
  posixpath.initial_slashes base = 1.
Proof.
  intros A E. destruct (@isabs_cons base A) as [r ->].
  unfold posixpath.normpath in E. cbn [String.eqb] in E.
  unfold posixpath.initial_slashes in *.
  unfold posixpath.isabs in A. rewrite A in *.
  destruct (_ && _); [|reflexivity].
  cbn [Nat.eqb Str.repeat String.append posixpath.sep String.eqb] in E.
  discriminate E.
Qed.

(** X5. A target made of plain components (not empty, neither [.] nor [..],
    no separator inside) is accepted under every absolute base that is not
    the root and does not begin with exactly two slashes; the path is the
    normal form of the base, a slash and the target. *)
Theorem plain_target_accepted (cwd base : string) (ts : list string) :
  posixpath.isabs base = true ->
  (Str.startswith base "//" = true -> Str.startswith base "///" = true) ->
  posixpath.normpath base <> "/" ->
  Forall plain ts -> ts <> [] ->
  _sanitize_path cwd (String.concat "/" ts) base
  = Return (posixpath.normpath base ++ "/" ++ String.concat "/" ts, None).
Proof.
  intros A S R Ht N.
  destruct (@normpath_rooted base (@single_root base A S)) as (comps & H & E).
  rewrite (@sanitize_plain_target cwd base comps ts A E H Ht N).
  destruct comps; [now elim R | reflexivity].
Qed.

Lemma plain_target_accepted_witness :
  _sanitize_path "/srv" (String.concat "/" ["org"; "repo.git"]) "/data//ws/"
  = Return (posixpath.normpath "/data//ws/" ++ "/"
              ++ String.concat "/" ["org"; "repo.git"], None).
Proof.
  apply plain_target_accepted;
    [reflexivity | discriminate | discriminate | | discriminate].
  repeat constructor; discriminate.
Defined.

(** X6. When the base directory is the root, every target of plain
    components is rejected as a traversal: [/name] neither is [/] nor
    starts with [//]. *)
Theorem root_base_rejects (cwd base : string) (ts : list string) :
  posixpath.isabs base = true -> posixpath.normpath base = "/" ->
  Forall plain ts -> ts <> [] ->
  _sanitize_path cwd (String.concat "/" ts) base
  = Return ("", Some (traversal_msg "/")).
Proof.
  intros A R Ht N.
  destruct (@normpath_rooted base (@root_normpath base A R)) as (comps & H & E).
  rewrite (@sanitize_plain_target cwd base comps ts A E H Ht N).
  destruct comps as [|c r]; [reflexivity|].
  exfalso. rewrite R in E.
  destruct (@concat_head (c :: r) H) as (x & t & X & _); [discriminate|].
  rewrite X in E. discriminate E.
Qed.

Lemma root_base_rejects_witness :
  _sanitize_path "/srv" (String.concat "/" ["repo"]) "/tmp/.."
  = Return ("", Some (traversal_msg "/")).
Proof.
  apply root_base_rejects; [reflexivity | reflexivity | | discriminate].
  repeat constructor; discriminate.
Defined.

(** ** The directory of a clone *)

Lemma rstrip_chars_all (chars ws : string) :
  Str.forallb (fun c => StrExt.mem c chars) ws = true ->
  StrExt.rstrip_chars chars ws = "".
Proof.
  induction ws as [|c ws IH]; simpl; [reflexivity|].
  intro H. apply andb_true_iff in H. destruct H as [Hc Hw].
  now rewrite IH, Hc.
Qed.

Lemma rstrip_chars_app (chars s ws : string) :
  Str.forallb (fun c => StrExt.mem c chars) ws = true ->
  StrExt.rstrip_chars chars (s ++ ws) = StrExt.rstrip_chars chars s.
Proof.
  intro H. induction s as [|c s IH]; simpl.
  - now apply rstrip_chars_all.
  - now rewrite IH.
Qed.

Lemma rstrip_chars_id (chars a : string) (c : ascii) :
  StrExt.mem c chars = false ->
  StrExt.rstrip_chars chars (a ++ String c "") = a ++ String c "".
Proof.
  intro H. induction a as [|x a IH]; simpl; [now rewrite H|].
  rewrite IH. now destruct a.
Qed.

Lemma slashes_all (k : nat) :
  Str.forallb (fun c => StrExt.mem c "/") (Str.repeat "/" k) = true.
Proof. induction k as [|k IH]; simpl; [reflexivity | exact IH]. Qed.

Lemma last_char (s : string) :
  s <> "" -> exists a c, s = a ++ String c "".
Proof.
  induction s as [|x s IH]; intro N; [now elim N|].
  destruct s as [|y s].
  - now exists "", x.
  - destruct IH as (a & c & E); [discriminate|].
    exists (String x a), c. simpl. now rewrite E.
Qed.

Lemma count_last_char (s a : string) (c d : ascii) :
  s = a ++ String c "" -> count d s = 0 -> Ascii.eqb c d = false.
Proof.
  intros -> H. rewrite count_app in H. simpl in H.
  destruct (Ascii.eqb c d); [lia | reflexivity].
Qed.

(** The name that follows the last slash, once the slashes at the end are
    gone. *)
Lemma last_field (pre n : string) (k : nat) :
  n <> "" -> count "/" n = 0 ->
  last (Str.split "/"
          (StrExt.rstrip_chars "/" (pre ++ "/" ++ n ++ Str.repeat "/" k))) ""
  = n.
Proof.
  intros N C.
  replace (pre ++ "/" ++ n ++ Str.repeat "/" k)
    with ((pre ++ "/" ++ n) ++ Str.repeat "/" k)
    by now rewrite !app_assoc.
  rewrite rstrip_chars_app by apply slashes_all.
  destruct (@last_char n N) as (a & c & E).
  pose proof (@count_last_char n a c "/" E C) as X.
  rewrite E.
  replace (pre ++ "/" ++ a ++ String c "")
    with ((pre ++ "/" ++ a) ++ String c "")
    by now rewrite !app_assoc.
  rewrite rstrip_chars_id by (simpl; now rewrite X).
  rewrite !app_assoc. change ("/" ++ a ++ String c "")
    with (String "/" (a ++ String c "")).
  rewrite split_app_sep, <- E, (@split_no_sep "/" n C).
  apply last_last.
Qed.

Lemma endswith_app (a p : string) : Str.endswith (a ++ p) p = true.
Proof.
  induction a as [|x a IH]; cbn [String.append Str.endswith].
  - destruct p; cbn [Str.endswith]; now rewrite String.eqb_refl.
  - now rewrite IH, orb_true_r.
Qed.

Lemma drop_last_app (a p : string) :
  StrExt.drop_last (String.length p) (a ++ p) = a.
Proof.
  unfold StrExt.drop_last, StrExt.take. rewrite length_app.
  replace (String.length a + String.length p - String.length p)
    with (String.length a) by lia.
  apply substring_app.
Qed.

Lemma derived_name_git (pre n : string) (k : nat) :
  count "/" n = 0 ->
  derived_repo_name (pre ++ "/" ++ n ++ ".git" ++ Str.repeat "/" k) = n.
Proof.
  intro C. unfold derived_repo_name.
  replace (pre ++ "/" ++ n ++ ".git" ++ Str.repeat "/" k)
    with (pre ++ "/" ++ (n ++ ".git") ++ Str.repeat "/" k)
    by now rewrite !app_assoc.
  rewrite last_field;
    [|now apply app_not_nil_r | rewrite count_app, C; reflexivity].
  rewrite endswith_app. apply (drop_last_app n ".git").
Qed.

Lemma derived_name_plain (pre n : string) (k : nat) :
  count "/" n = 0 -> n <> "" -> Str.endswith n ".git" = false ->
  derived_repo_name (pre ++ "/" ++ n ++ Str.repeat "/" k) = n.
Proof.
  intros C N E. unfold derived_repo_name.
  rewrite last_field by assumption. now rewrite E.
Qed.

(** X7. The directory of a clone is the name between the last slash and
    [.git], whatever comes before and however many slashes come after; a
    name without [.git] at its end is taken whole. *)
Theorem derived_name_of_url (pre n : string) (k : nat) :
  count "/" n = 0 ->
  derived_repo_name (pre ++ "/" ++ n ++ ".git" ++ Str.repeat "/" k) = n
  /\ (n <> "" -> Str.endswith n ".git" = false ->
      derived_repo_name (pre ++ "/" ++ n ++ Str.repeat "/" k) = n).
Proof.
  intro C. split; [now apply derived_name_git|].
  intros N E. now apply derived_name_plain.
Qed.

Lemma derived_name_of_url_witness :
  derived_repo_name ("git@github.com:owner" ++ "/" ++ "tool.git" ++ ".git"
                       ++ Str.repeat "/" 2) = "tool.git"
  /\ ("tool.git" <> "" -> Str.endswith "tool.git" ".git" = false ->
      derived_repo_name ("git@github.com:owner" ++ "/" ++ "tool.git"
                           ++ Str.repeat "/" 2) = "tool.git").
Proof. apply derived_name_of_url. reflexivity. Defined.

Lemma count_take (c : ascii) (s : string) (n : nat) :
  count c s = 0 -> count c (StrExt.take n s) = 0.
Proof.
  unfold StrExt.take. revert n.
  induction s as [|x s IH]; intros [|n] H; simpl; try reflexivity.
  - simpl in H. destruct (Ascii.eqb x c); [discriminate H|].
    simpl. apply IH. exact H.
Qed.

(** The directory taken from a URL has no slash in it. *)
Lemma derived_name_no_slash (repo_url : string) :
  count "/" (derived_repo_name repo_url) = 0.
Proof.
  unfold derived_repo_name.
  set (fields := Str.split "/" _).
  assert (L : count "/" (last fields "") = 0).
  { apply (@last_in (fun f => count "/" f = 0));
      [apply split_fields | apply split_not_nil]. }
  destruct (Str.endswith _ _); [|exact L].
  unfold StrExt.drop_last. now apply count_take.
Qed.

Lemma no_slash_relative (s : string) :
  count "/" s = 0 -> posixpath.isabs s = false.
Proof.
  unfold posixpath.isabs, Str.startswith, posixpath.sep.
  destruct s as [|x s]; [reflexivity|]. rewrite prefix_cons.
  destruct (Ascii.eqb_spec "/" x) as [<-|N]; [|reflexivity].
  simpl. discriminate.
Qed.

(** X8. The directory taken from a URL has no slash in it, so
    [_sanitize_path] never rejects it as an absolute path, whatever the
    URL. *)
Theorem derived_name_is_relative (cwd base repo_url : string) :
  count "/" (derived_repo_name repo_url) = 0
  /\ posixpath.isabs (derived_repo_name repo_url) = false
  /\ (forall msg, _sanitize_path cwd (derived_repo_name repo_url) base
                  <> Return ("", Some (absolute_msg msg))).
Proof.
  pose proof (derived_name_no_slash repo_url) as C.
  pose proof (@no_slash_relative _ C) as R.
  split; [exact C|]. split; [exact R|].
  intros msg E. unfold _sanitize_path in E. rewrite R in E.
  destruct (posixpath.commonpath _) as [common|[m|]];
    [|discriminate..].
  destruct (negb (common =? _)); [discriminate|].
  destruct (negb _); discriminate.
Qed.

(** X9. A clone without [target_dir] of a URL that ends in a plain name and
    [.git] is confined to the directory of that name under the workspace,
    when the workspace is absolute, is not the root and does not begin
    with exactly two slashes. *)
Theorem clone_directory_under_workspace (cwd base pre n : string) (k : nat) :
  posixpath.isabs base = true ->
  (Str.startswith base "//" = true -> Str.startswith base "///" = true) ->
  posixpath.normpath base <> "/" ->
  plain n ->
  _sanitize_path cwd
    (derived_repo_name (pre ++ "/" ++ n ++ ".git" ++ Str.repeat "/" k)) base
  = Return (posixpath.normpath base ++ "/" ++ n, None).
Proof.
  intros A S R P. rewrite derived_name_git by apply P.
  destruct (@normpath_rooted base (@single_root base A S)) as (comps & H & E).
  assert (Ht : Forall plain [n]) by (constructor; [exact P | constructor]).
  assert (N : [n] <> []) by discriminate.
  pose proof (@sanitize_plain_target cwd base comps [n] A E H Ht N) as T.
  cbn [String.concat] in T. rewrite T.
  destruct comps; [now elim R | reflexivity].
Qed.

Lemma clone_directory_under_workspace_witness :
  _sanitize_path "/srv"
    (derived_repo_name ("https://github.com/owner" ++ "/" ++ "repo" ++ ".git"
                          ++ Str.repeat "/" 1)) "/workspace"
  = Return (posixpath.normpath "/workspace" ++ "/" ++ "repo", None).
Proof.
  apply clone_directory_under_workspace;
    [reflexivity | discriminate | discriminate |].
  repeat split; discriminate.
Defined.

(** ** The files of [git status --short] *)

Lemma fold_status (lines : list string) :
  forall acc,
    fold_left status_entry lines acc
    = (acc ++ flat_map status_of_line lines)%list.
Proof.
  induction lines as [|l lines IH]; intro acc; simpl.
  - now rewrite List.app_nil_r.
  - rewrite IH. unfold status_entry, status_of_line.
    destruct (StrExt.truthy l); [now rewrite <- List.app_assoc | reflexivity].
Qed.

Lemma status_files_lines (stdout : string) :
  status_files stdout
  = flat_map status_of_line (Str.split LF (Str.strip stdout)).
Proof. unfold status_files. now rewrite fold_status. Qed.

Lemma lstrip_head (s : string) (c : ascii) (r : string) :
  Str.lstrip s = String c r -> Str.isspace c = false.
Proof.
  induction s as [|x s IH]; simpl; [discriminate|].
  destruct (Str.isspace x) eqn:X; [exact IH|].
  intro E. injection E as <- _. exact X.
Qed.

Lemma rstrip_head (s : string) (c : ascii) (r : string) :
  Str.rstrip s = String c r -> exists r', s = String c r'.
Proof.
  destruct s as [|x s]; simpl; [discriminate|].
  destruct (Str.rstrip s).
  - destruct (Str.isspace x); [discriminate|].
    intro E. injection E as <- _. eauto.
  - intro E. injection E as <- _. eauto.
Qed.

(** A stripped string does not begin with white space. *)
Lemma strip_head (s : string) (c : ascii) (r : string) :
  Str.strip s = String c r -> Str.isspace c = false.
Proof.
  unfold Str.strip. intro E. apply rstrip_head in E. destruct E as [r' E].
  now apply lstrip_head in E.
Qed.

(** X10. [is_clean] is true exactly when the output of [git status --short]
    is blank: no file is listed if and only if the output is white space
    only. *)
Theorem status_clean_iff_blank (stdout : string) :
  status_files stdout = [] <-> Str.strip stdout = "".
Proof.
  rewrite status_files_lines. split.
  - destruct (Str.strip stdout) as [|c r] eqn:E; [reflexivity|].
    pose proof (@strip_head stdout c r E) as X.
    assert (N : Ascii.eqb c LF = false).
    { destruct (Ascii.eqb_spec c LF) as [->|]; [discriminate X | reflexivity]. }
    cbn [Str.split]. rewrite N.
    destruct (Str.split LF r); discriminate.
  - intros ->. reflexivity.
Qed.

Lemma split_concat_lines (lines : list string) :
  Forall (fun l => count LF l = 0) lines -> lines <> [] ->
  Str.split LF (String.concat (String LF "") lines) = lines.
Proof.
  induction lines as [|x [|y r] IH]; intros H N; [now elim N| |].
  - inversion H; subst. now apply split_no_sep.
  - inversion H; subst.
    change (String.concat (String LF "") (x :: y :: r))
      with (x ++ String LF (String.concat (String LF "") (y :: r))).
    rewrite split_app_sep, IH; [|assumption|discriminate].
    now rewrite split_no_sep.
Qed.

Lemma concat_first (sep : string) (lines : list string) (c : ascii) (r : string) :
  hd "" lines = String c r ->
  exists r', String.concat sep lines = String c r'.
Proof.
  destruct lines as [|l [|m ls]]; simpl; [discriminate| |]; intros ->;
    eexists; reflexivity.
Qed.

Lemma concat_last (sep : string) (lines : list string) :
  lines <> [] ->
  exists pre, String.concat sep lines = pre ++ last lines "".
Proof.
  induction lines as [|l [|m ls] IH]; intro N; [now elim N| |].
  - now exists "".
  - destruct IH as [pre E]; [discriminate|].
    exists (l ++ sep ++ pre).
    change (String.concat sep (l :: m :: ls))
      with (l ++ sep ++ String.concat sep (m :: ls)).
    rewrite E. change (last (l :: m :: ls) "") with (last (m :: ls) "").
    now rewrite !app_assoc.
Qed.

(** What [strip] leaves of an output whose first line begins and whose last
    line ends with something else than white space. *)
Lemma strip_output (ws : string) (lines : list string) :
  Str.forallb Str.isspace ws = true ->
  starts_nonspace (hd "" lines) -> ends_nonspace (last lines "") ->
  Str.strip (ws ++ String.concat (String LF "") lines ++ String LF "")
  = String.concat (String LF "") lines.
Proof.
  intros W (c & r & Hh & Hc) (a & d & Hl & Hd).
  rewrite strip_spaces by (assumption || reflexivity).
  assert (N : lines <> []) by (intros ->; discriminate Hh).
  destruct (@concat_first (String LF "") lines c r Hh) as [r' E1].
  destruct (@concat_last (String LF "") lines N) as [pre E2].
  apply strip_id.
  - rewrite E1. simpl. now rewrite Hc.
  - rewrite E2, Hl, <- !app_assoc.
    apply rstrip_app_id; [|discriminate]. simpl. now rewrite Hd.
Qed.

Lemma strip_output_plain (lines : list string) :
  starts_nonspace (hd "" lines) -> ends_nonspace (last lines "") ->
  Str.strip (String.concat (String LF "") lines ++ String LF "")
  = String.concat (String LF "") lines.
Proof. intros Hh Hl. exact (@strip_output "" lines eq_refl Hh Hl). Qed.

Lemma status_of_status_line (e : string * string) :
  status_ok e ->
  status_of_line (status_line e) = [(Str.strip (fst e), snd e)]
  /\ count LF (status_line e) = 0.
Proof.
  destruct e as [xy f]. unfold status_ok, status_line, status_of_line.
  cbn [fst snd]. intros (L & C1 & N & C2). split.
  - destruct xy as [|x [|y [|z t]]]; try discriminate L. reflexivity.
  - rewrite !count_app, C1, C2. reflexivity.
Qed.

Lemma status_of_lines (es : list (string * string)) :
  Forall status_ok es ->
  flat_map status_of_line (map status_line es)
  = map (fun e => (Str.strip (fst e), snd e)) es
  /\ Forall (fun l => count LF l = 0) (map status_line es).
Proof.
  induction es as [|e es IH]; intro H; [split; [reflexivity | constructor]|].
  inversion H as [|? ? He Hes]; subst.
  destruct (IH Hes) as [IH1 IH2].
  destruct (@status_of_status_line e He) as [E C].
  cbn [map flat_map]. rewrite E, IH1. split; [reflexivity|].
  now constructor.
Qed.

Lemma last_map_status (es : list (string * string)) (d : string * string) :
  es <> [] -> ends_nonspace (snd (last es d)) ->
  ends_nonspace (last (map status_line es) "").
Proof.
  induction es as [|e [|e' es] IH]; intros N H; [now elim N| |].
  - simpl in *. destruct H as (a & c & E & X).
    exists (fst e ++ " " ++ a), c. unfold status_line. rewrite E.
    now rewrite !app_assoc.
  - apply IH; [discriminate | exact H].
Qed.

(** X11. The entries of a well-formed output come back as they are, status
    stripped, when the first status does not begin with a blank and the
    last file name does not end with white space. *)
Theorem status_files_round_trip (es : list (string * string)) :
  Forall status_ok es -> es <> [] ->
  starts_nonspace (fst (hd ("", "") es)) ->
  ends_nonspace (snd (last es ("", ""))) ->
  status_files (status_output es)
  = map (fun e => (Str.strip (fst e), snd e)) es.
Proof.
  intros H N Hh Hl. rewrite status_files_lines. unfold status_output.
  destruct (@status_of_lines es H) as [E F].
  rewrite strip_output_plain.
  - rewrite split_concat_lines; [exact E | exact F |].
    destruct es; [now elim N | discriminate].
  - destruct es as [|e es]; [now elim N|]. cbn [map hd fst] in *.
    destruct Hh as (c & r & Hc & X). exists c, (r ++ " " ++ snd e).
    unfold status_line. now rewrite Hc.
  - now apply last_map_status with (d := ("", "")).
Qed.

Lemma status_files_round_trip_witness :
  status_files (status_output [("M ", "src/a.py"); ("??", "notes.txt")])
  = map (fun e => (Str.strip (fst e), snd e))
        [("M ", "src/a.py"); ("??", "notes.txt")].
Proof.
  apply status_files_round_trip.
  - repeat constructor; discriminate.
  - discriminate.
  - exists "M"%char, " ". split; reflexivity.
  - exists "notes.tx", "t"%char. split; reflexivity.
Defined.

Lemma strip_char_blank (y : ascii) :
  Str.isspace y = false -> Str.strip (String y " ") = String y "".
Proof.
  intro Y. unfold Str.strip. cbn [Str.lstrip]. rewrite Y. cbn [Str.rstrip].
  change (Str.isspace " ") with true. cbv iota. now rewrite Y.
Qed.

(** X12. When the first status begins with a blank (a change that is not
    staged, at the head of the list), [strip] takes the blank away before
    the lines are cut: the first file comes back without its first
    character, the other entries as they are. *)
Theorem status_files_leading_blank
    (y : ascii) (f : string) (es : list (string * string)) :
  Str.isspace y = false ->
  Forall status_ok ((String " " (String y ""), f) :: es) ->
  ends_nonspace (snd (last ((String " " (String y ""), f) :: es) ("", ""))) ->
  status_files (status_output ((String " " (String y ""), f) :: es))
  = (String y "", Str.drop 1 f)
      :: map (fun e => (Str.strip (fst e), snd e)) es.
Proof.
  intros Y H Hl. rewrite status_files_lines. unfold status_output.
  inversion H as [|? ? He Hes]; subst.
  destruct (@status_of_lines es Hes) as [E F].
  destruct He as (_ & Cy & Nf & Cf). cbn [fst snd] in *.
  set (line1 := String y (" " ++ f)).
  assert (L : String.concat (String LF "")
                (map status_line ((String " " (String y ""), f) :: es))
              = " " ++ String.concat (String LF "")
                         (line1 :: map status_line es)).
  { destruct es; reflexivity. }
  rewrite L, app_assoc.
  rewrite (@strip_output " " (line1 :: map status_line es) eq_refl).
  - rewrite split_concat_lines.
    + cbn [flat_map]. rewrite E. unfold line1, status_of_line.
      cbn [StrExt.truthy String.eqb negb StrExt.take String.substring
             String.append Str.drop].
      destruct f as [|f0 f']; [now elim Nf|].
      cbn [String.substring Str.drop List.app].
      now rewrite (@strip_char_blank y Y).
    + constructor; [|exact F]. unfold line1.
      change (String y (" " ++ f)) with (String y "" ++ " " ++ f).
      rewrite !count_app, Cf. simpl in Cy. simpl.
      destruct (Ascii.eqb y LF); [discriminate Cy | reflexivity].
    + discriminate.
  - exists y, (" " ++ f). now split.
  - destruct es as [|e es].
    + destruct Hl as (a & c & E1 & X). cbn [last snd] in E1.
      exists (String y (" " ++ a)), c. unfold line1. cbn [map last].
      rewrite E1. split; [reflexivity | exact X].
    + change (last (line1 :: map status_line (e :: es)) "")
        with (last (map status_line (e :: es)) "").
      apply last_map_status with (d := ("", "")); [discriminate|exact Hl].
Qed.

Lemma status_files_leading_blank_witness :
  status_files (status_output [(String " " (String "M" ""), "file.py")])
  = [(String "M" "", Str.drop 1 "file.py")].
Proof.
  apply (@status_files_leading_blank "M" "file.py" []).
  - reflexivity.
  - repeat constructor; discriminate.
  - exists "file.p", "y"%char. split; reflexivity.
Defined.

(** ** The tools of [git_tools.py] *)

Lemma normpath_not_empty (p : string) : posixpath.normpath p <> "".
Proof.
  unfold posixpath.normpath. destruct (p =? ""); [discriminate|].
  cbv zeta.
  match goal with
  | |- (if ?x =? "" then _ else _) <> _ =>
      destruct (String.eqb_spec x "") as [E|N]; [discriminate | exact N]
  end.
Qed.

(** What [_sanitize_path] returns when the caller goes on: no error, and a
    path that is not empty, inside the canonical base. *)
Lemma sanitize_accepts (cwd target base path : string) (error : option string) :
  _sanitize_path cwd target base = Return (path, error) ->
  truthy_opt error = false ->
  error = None /\ path <> "" /\ inside (posixpath.abspath cwd base) path.
Proof.
  unfold _sanitize_path. intros H T.
  destruct (posixpath.isabs target).
  { injection H as <- <-. discriminate T. }
  set (b := posixpath.abspath cwd base) in *.
  set (f := posixpath.normpath (posixpath.join b target)) in *.
  destruct (posixpath.commonpath [b; f]) as [common|[msg|]];
    [| injection H as <- <-; discriminate T | discriminate H].
  destruct (negb (common =? b)); [injection H as <- <-; discriminate T|].
  destruct ((f =? b) || Str.startswith f (b ++ posixpath.sep)) eqn:E;
    simpl in H; injection H as <- <-; [|discriminate T].
  split; [reflexivity|]. split; [apply normpath_not_empty|].
  apply orb_true_iff in E. destruct E as [E|E];
    [left; now apply String.eqb_eq | now right].
Qed.

Lemma cwd_or_default_same (w : world) :
  cwd_or_default w (Some (DEFAULT_WORKSPACE_DIR w)) = DEFAULT_WORKSPACE_DIR w.
Proof.
  unfold cwd_or_default, StrExt.or_else.
  now destruct (StrExt.truthy _).
Qed.

Lemma cwd_or_default_path (w : world) (path : string) :
  path <> "" -> cwd_or_default w (Some path) = path.
Proof.
  intro N. unfold cwd_or_default, StrExt.or_else, StrExt.truthy.
  apply String.eqb_neq in N. now rewrite N.
Qed.

(** [_run_git_command] adds one event, the command in its directory. *)
Lemma run_git_event (w : world) (args : list string) (cwd : option string)
    (h h' : list event) (res : git_result) :
  _run_git_command w args cwd h = (res, h') ->
  h' = (h ++ [Run ("git" :: args) (cwd_or_default w cwd)])%list.
Proof. unfold _run_git_command. intro E. now injection E as _ <-. Qed.

(** The flag [success] says that the command completed with the return
    code 0. *)
Lemma run_git_success (w : world) (args : list string) (cwd : option string)
    (h h' : list event) (res : git_result) :
  _run_git_command w args cwd h = (res, h') ->
  (success res = true <->
   exists out err,
     subprocess_run w h ("git" :: args) (cwd_or_default w cwd)
     = Completed out err 0%Z).
Proof.
  unfold _run_git_command. intro E. injection E as <- _.
  destruct (subprocess_run w h _ _) as [out err rc| |msg]; cbn [success];
    split; try discriminate; try (intros (? & ? & X); discriminate X).
  - intro Z0. apply Z.eqb_eq in Z0. subst rc. eauto.
  - intros (o & e & X). injection X as _ _ ->. reflexivity.
Qed.



(** *** Staging and committing *)

Lemma all_succeed_one (w : world) (h : list event) (cmd : list string)
    (dir : string) :
  all_succeed w h [Run cmd dir]
  <-> exists out err, subprocess_run w h cmd dir = Completed out err 0%Z.
Proof. cbn [all_succeed]. tauto. Qed.

(** The loop over the files: either every [git add] succeeded, in the order
    of the list, or the loop stopped at the first one that failed. *)
Lemma stage_files_spec (w : world) (path : string) (files : list string) :
  forall (h h' : list event) (r : option (string * git_result)),
    stage_files w path files h = (r, h') ->
    (r = None
     /\ h' = (h ++ map (git_add w path) files)%list
     /\ all_succeed w h (map (git_add w path) files))
    \/ (exists pre file post add_result,
           files = (pre ++ file :: post)%list
           /\ r = Some (file, add_result)
           /\ all_succeed w h (map (git_add w path) pre)
           /\ ~ all_succeed w (h ++ map (git_add w path) pre)%list
                  [git_add w path file]
           /\ h' = (h ++ map (git_add w path) (pre ++ [file]))%list).
Proof.
  induction files as [|file rest IH]; intros h h' r H; cbn [stage_files] in H.
  - injection H as <- <-. left. cbn [map all_succeed].
    now rewrite List.app_nil_r.
  - destruct (_run_git_command w ["add"; file] (Some path) h) as [a h1] eqn:R.
    pose proof (run_git_success R) as S.
    apply run_git_event in R. subst h1.
    destruct (success a) eqn:A; cbn [negb] in H.
    + apply IH in H.
      destruct H as [(-> & -> & OK) | (pre & f & post & ar & -> & -> & OK & KO & ->)].
      * left. split; [reflexivity|]. split.
        -- cbn [map]. now rewrite <- List.app_assoc.
        -- cbn [map all_succeed]. unfold git_add at 1. split; [now apply S|].
           exact OK.
      * right. exists (file :: pre), f, post, ar.
        split; [reflexivity|]. split; [reflexivity|]. split.
        -- cbn [map all_succeed]. unfold git_add at 1.
           split; [now apply S | exact OK].
        -- split.
           ++ cbn [map]. rewrite <- List.app_assoc in KO. exact KO.
           ++ cbn [map app]. now rewrite <- List.app_assoc.
    + injection H as <- <-. right. exists [], file, rest, a.
      split; [reflexivity|]. split; [reflexivity|].
      split; [exact I|]. split.
      * cbn [map]. rewrite List.app_nil_r. unfold git_add.
        rewrite all_succeed_one. intro X. apply S in X. discriminate X.
      * reflexivity.
Qed.

(** [commit_staged] runs the commit, and asks for the hash exactly when the
    commit succeeded. *)
Lemma commit_staged_events (w : world) (message path : string)
    (h h' : list event) (res : result string) :
  commit_staged w message path h = (res, h') ->
  let dir := cwd_or_default w (Some path) in
  let commit := Run ["git"; "commit"; "-m"; message] dir in
  (all_succeed w h [commit]
   /\ h' = (h ++ [commit; Run ["git"; "rev-parse"; "HEAD"] dir])%list)
  \/ (~ all_succeed w h [commit] /\ h' = (h ++ [commit])%list).
Proof.
  intros H dir commit. unfold commit_staged in H.
  destruct (_run_git_command w ["commit"; "-m"; message] (Some path) h)
    as [c h1] eqn:R.
  pose proof (run_git_success R) as S.
  apply run_git_event in R. subst h1.
  unfold commit. rewrite all_succeed_one.
  destruct (success c) eqn:C.
  - destruct (_run_git_command w ["rev-parse"; "HEAD"] (Some path) _)
      as [r h2] eqn:R2.
    apply run_git_event in R2. subst h2. injection H as _ <-.
    left. split; [now apply S|]. now rewrite <- List.app_assoc.
  - right. split.
    + intro X. apply S in X. discriminate X.
    + destruct (StrExt.contains _ _); now injection H as _ <-.
Qed.



(** *** The default repository *)

Lemma first_repo_spec (w : world) (h : list event) (entries : list string) :
  (forall p, first_repo w h entries = Some p ->
     exists pre entry post,
       entries = (pre ++ entry :: post)%list
       /\ p = posixpath.join (DEFAULT_WORKSPACE_DIR w) entry
       /\ is_repo w h entry = true
       /\ Forall (fun e => is_repo w h e = false) pre)
  /\ (first_repo w h entries = None ->
      Forall (fun e => is_repo w h e = false) entries).
Proof.
  induction entries as [|e rest [IHs IHn]].
  - split; [discriminate | intros _; apply Forall_nil].
  - assert (R : first_repo w h (e :: rest)
                = if is_repo w h e
                  then Some (posixpath.join (DEFAULT_WORKSPACE_DIR w) e)
                  else first_repo w h rest).
    { cbn [first_repo]. unfold is_repo.
      destruct (path_isdir w h _); [|reflexivity].
      now destruct (path_exists w h _). }
    rewrite R. destruct (is_repo w h e) eqn:E; split.
    + intros p [= <-]. exists [], e, rest.
      repeat split; [exact E | apply Forall_nil].
    + discriminate.
    + intros p H. destruct (IHs p H) as (pre & x & post & -> & -> & X & F).
      exists (e :: pre), x, post.
      repeat split; [exact X | apply Forall_cons; assumption].
    + intro H. apply Forall_cons; [exact E | exact (IHn H)].
Qed.

Lemma first_repo_found (w : world) (h : list event) (pre post : list string)
    (entry : string) :
  Forall (fun e => is_repo w h e = false) pre ->
  is_repo w h entry = true ->
  first_repo w h (pre ++ entry :: post)
  = Some (posixpath.join (DEFAULT_WORKSPACE_DIR w) entry).
Proof.
  intros F E. induction F as [|e pre N F IH].
  - cbn [app first_repo]. unfold is_repo in E.
    apply andb_true_iff in E. destruct E as [-> ->]. reflexivity.
  - cbn [app first_repo]. unfold is_repo in N.
    destruct (path_isdir w h _); [|exact IH].
    cbn [andb] in N. rewrite N. exact IH.
Qed.

Lemma first_repo_none (w : world) (h : list event) (entries : list string) :
  Forall (fun e => is_repo w h e = false) entries ->
  first_repo w h entries = None.
Proof.
  induction 1 as [|e rest N F IH]; [reflexivity|].
  cbn [first_repo]. unfold is_repo in N.
  destruct (path_isdir w h _); [|exact IH].
  cbn [andb] in N. rewrite N. exact IH.
Qed.

(** X15. [_get_default_repo_path] returns a path exactly when the workspace
    exists and its listing has an entry that is a directory with a [.git]
    in it; the path is the workspace joined with the first such entry of
    the listing. *)
Theorem default_repo_is_first (w : world) (h : list event) (p : string) :
  _get_default_repo_path w h = Ok (Some p)
  <-> path_exists w h (DEFAULT_WORKSPACE_DIR w) = true
      /\ exists pre entry post,
           listdir w h (DEFAULT_WORKSPACE_DIR w)
           = Ok (pre ++ entry :: post)%list
           /\ p = posixpath.join (DEFAULT_WORKSPACE_DIR w) entry
           /\ is_repo w h entry = true
           /\ Forall (fun e => is_repo w h e = false) pre.
Proof.
  unfold _get_default_repo_path. split.
  - destruct (path_exists w h _); [|discriminate]. cbn [negb].
    destruct (listdir w h _) as [entries|e]; [|discriminate].
    intros [= H]. split; [reflexivity|].
    destruct (proj1 (first_repo_spec w h entries) p H)
      as (pre & x & post & -> & -> & X & F).
    exists pre, x, post. repeat split; assumption.
  - intros (-> & pre & x & post & -> & -> & X & F). cbn [negb].
    now rewrite (@first_repo_found w h pre post x F X).
Qed.

(** X16. [_get_default_repo_path] returns [None] exactly when the workspace
    does not exist, or it can be listed and no entry of the listing is a
    directory with a [.git] in it; a listing that fails is an exception, not
    [None]. *)
Theorem default_repo_none (w : world) (h : list event) :
  _get_default_repo_path w h = Ok None
  <-> path_exists w h (DEFAULT_WORKSPACE_DIR w) = false
      \/ exists entries,
           listdir w h (DEFAULT_WORKSPACE_DIR w) = Ok entries
           /\ Forall (fun e => is_repo w h e = false) entries.
Proof.
  unfold _get_default_repo_path. split.
  - destruct (path_exists w h _); [|now left]. cbn [negb].
    destruct (listdir w h _) as [entries|e]; [|discriminate].
    intros [= H]. right. exists entries. split; [reflexivity|].
    exact (proj2 (first_repo_spec w h entries) H).
  - intros [-> | (entries & -> & F)]; [reflexivity|].
    rewrite (@first_repo_none w h entries F). now destruct (negb _).
Qed.

(** *** The tools that work in a repository *)

Lemma git_in_adds (w : world) (path : string) (files : list string) :
  Forall (git_in (cwd_or_default w (Some path))) (map (git_add w path) files).
Proof.
  induction files as [|f fs IH]; [apply Forall_nil|].
  cbn [map]. apply Forall_cons; [|exact IH]. now exists ["add"; f].
Qed.

Ltac run_git H :=
  match type of H with
  | context [_run_git_command ?w ?a ?c ?h] =>
      let r := fresh "r" in
      let h1 := fresh "h" in
      let R := fresh "R" in
      destruct (_run_git_command w a c h) as [r h1] eqn:R;
      apply run_git_event in R; subst h1
  end.

Ltac new_events :=
  match goal with
  | H : _ = (_, _) |- _ => cbv beta iota zeta in H; injection H as _ <-
  end;
  rewrite <- ?List.app_assoc; cbn [app];
  eexists; split; [reflexivity|];
  repeat (apply Forall_cons; [eexists; reflexivity|]); apply Forall_nil.

(** X17. The tools for status, diff, commit, push and checkout only add
    events: when no repository is found, or the listing of the workspace
    fails, they run nothing; otherwise every event they add is a git command
    run in the repository, the given [repo_path] as it is or the default
    one. *)
Theorem repo_tools_run_git_there (w : world)
    (tool : option string -> io (result string))
    (repo_path : option string) (h h' : list event) (res : result string) :
  repo_tool w tool ->
  tool repo_path h = (res, h') ->
  exists new,
    h' = (h ++ new)%list
    /\ match repo_path_or_default w repo_path h with
       | Ok (Some path) => Forall (git_in (cwd_or_default w (Some path))) new
       | _ => new = []
       end.
Proof.
  intros T H.
  assert (G : forall body,
             with_repo w repo_path body h = (res, h') ->
             (forall path h0 res0 h1,
                 body path h0 = (res0, h1) ->
                 exists new,
                   h1 = (h0 ++ new)%list
                   /\ Forall (git_in (cwd_or_default w (Some path))) new) ->
             exists new,
               h' = (h ++ new)%list
               /\ match repo_path_or_default w repo_path h with
                  | Ok (Some path) =>
                      Forall (git_in (cwd_or_default w (Some path))) new
                  | _ => new = []
                  end).
  { intros body E B. unfold with_repo in E.
    destruct (repo_path_or_default w repo_path h) as [[path|]|e].
    - exact (B _ _ _ _ E).
    - injection E as _ <-. exists []. now rewrite List.app_nil_r.
    - injection E as _ <-. exists []. now rewrite List.app_nil_r. }
  destruct T; (eapply G; [exact H|]); clear; intros path h res h' H;
    cbv beta zeta in H.
  - do 3 run_git H. destruct (success r); new_events.
  - run_git H. destruct (success r); new_events.
  - assert (C : forall h0 res0 h1,
               commit_staged w message path h0 = (res0, h1) ->
               exists new,
                 h1 = (h0 ++ new)%list
                 /\ Forall (git_in (cwd_or_default w (Some path))) new).
    { clear. intros h res h' H. unfold commit_staged in H.
      run_git H. destruct (success r).
      - run_git H. new_events.
      - destruct (StrExt.contains _ _); new_events. }
    destruct (nonempty_opt files).
    + destruct (stage_files w path _ h) as [r h1] eqn:E.
      assert (S : exists new,
                 h1 = (h ++ new)%list
                 /\ Forall (git_in (cwd_or_default w (Some path))) new).
      { apply stage_files_spec in E.
        destruct E as [(_ & -> & _) | (pre & f & post & ar & _ & _ & _ & _ & ->)];
          eexists; (split; [reflexivity | apply git_in_adds]). }
      destruct S as (new & -> & F). destruct r as [[file ar]|].
      * injection H as _ <-. now exists new.
      * apply C in H. destruct H as (new' & -> & F').
        exists (new ++ new')%list. split; [now rewrite List.app_assoc|].
        apply Forall_app. now split.
    + destruct all_changes; [|exact (C _ _ _ H)].
      run_git H. destruct (success r); cbn [negb] in H.
      * apply C in H. destruct H as (new' & -> & F').
        eexists. split; [now rewrite <- List.app_assoc|].
        cbn [app]. apply Forall_cons; [eexists; reflexivity | exact F'].
      * new_events.
  - destruct branch as [b|].
    + run_git H. destruct (success r); new_events.
    + run_git H. destruct (success r).
      * run_git H. destruct (success r0); new_events.
      * new_events.
  - run_git H. destruct (success r).
    + run_git H. destruct (success r0); new_events.
    + destruct create.
      * run_git H. destruct (success r0); new_events.
      * new_events.
Qed.

(** X18. [GitCheckoutBranchTool.apply] decides by its probe,
    [git rev-parse --verify refs/heads/<branch>]: when the probe succeeds the
    only other command is [git checkout <branch>], never with [-b]; when it
    fails and [create] is false nothing else is run and the answer says that
    the branch does not exist; when it fails and [create] is true the only
    other command is [git checkout -b <branch>], followed by the start point
    if one is given and is not empty. *)
Theorem checkout_follows_probe (w : world) (branch_name : string)
    (repo_path : option string) (create : bool) (start_point : option string)
    (path : string) (h h' : list event) (res : result string) :
  repo_path_or_default w repo_path h = Ok (Some path) ->
  GitCheckoutBranchTool_apply w branch_name repo_path create start_point h
  = (res, h') ->
  let dir := cwd_or_default w (Some path) in
  let probe :=
    Run ["git"; "rev-parse"; "--verify"; "refs/heads/" ++ branch_name] dir in
  (all_succeed w h [probe] ->
   h' = (h ++ [probe; Run ["git"; "checkout"; branch_name] dir])%list)
  /\ (~ all_succeed w h [probe] -> create = false ->
      h' = (h ++ [probe])%list
      /\ res = Ok (failed w
                     [("error",
                       JStr ("Branch '" ++ branch_name
                               ++ "' does not exist. Set create=True to create it."))]))
  /\ (~ all_succeed w h [probe] -> create = true ->
      h' = (h ++ [probe;
                  Run ("git" :: "checkout" :: "-b" :: branch_name
                         :: match start_point with
                            | Some s => if s =? "" then [] else [s]
                            | None => []
                            end) dir])%list).
Proof.
  intros P H dir probe.
  unfold GitCheckoutBranchTool_apply, with_repo in H. rewrite P in H.
  destruct (_run_git_command w
              ["rev-parse"; "--verify"; "refs/heads/" ++ branch_name]
              (Some path) h) as [c h1] eqn:R.
  pose proof (run_git_success R) as S.
  apply run_git_event in R. subst h1. cbv zeta in H.
  unfold probe. rewrite all_succeed_one.
  destruct (success c) eqn:C.
  - assert (Y : exists out err,
               subprocess_run w h
                 ["git"; "rev-parse"; "--verify"; "refs/heads/" ++ branch_name]
                 dir = Completed out err 0%Z) by now apply S.
    run_git H.
    assert (E : h' = (h ++ [probe; Run ["git"; "checkout"; branch_name] dir])%list).
    { destruct (success r); injection H as _ <-;
        now rewrite <- List.app_assoc. }
    split; [intros _; exact E|]. split; intros X; now contradiction X.
  - assert (Y : ~ exists out err,
               subprocess_run w h
                 ["git"; "rev-parse"; "--verify"; "refs/heads/" ++ branch_name]
                 dir = Completed out err 0%Z).
    { intro X. apply S in X. discriminate X. }
    split; [intro X; now contradiction Y|].
    destruct create.
    + split; [discriminate|]. intros _ _.
      run_git H.
      assert (A : (if truthy_opt start_point
                   then [match start_point with Some s => s | None => "" end]
                   else [])
                  = match start_point with
                    | Some s => if s =? "" then [] else [s]
                    | None => []
                    end).
      { destruct start_point as [s|]; [|reflexivity].
        unfold truthy_opt, StrExt.truthy. now destruct (s =? ""). }
      rewrite A in H.
      destruct (success r); injection H as _ <-;
        now rewrite <- List.app_assoc.
    + split; [|discriminate]. intros _ _.
      injection H as <- <-. split; reflexivity.
Qed.

Lemma checkout_follows_probe_witness :
  exists res h',
    GitCheckoutBranchTool_apply example_world "feature" (Some "/workspace/repo")
      true None [] = (res, h')
    /\ let w := example_world in
       let branch_name := "feature" in
       let h := [] in
       let dir := cwd_or_default w (Some "/workspace/repo") in
       let probe :=
         Run ["git"; "rev-parse"; "--verify"; "refs/heads/" ++ branch_name]
             dir in
       (all_succeed w h [probe] ->
        h' = (h ++ [probe; Run ["git"; "checkout"; branch_name] dir])%list)
       /\ (~ all_succeed w h [probe] -> true = false ->
           h' = (h ++ [probe])%list
           /\ res = Ok (failed w
                          [("error",
                            JStr ("Branch '" ++ branch_name
                                    ++ "' does not exist. Set create=True to create it."))]))
       /\ (~ all_succeed w h [probe] -> true = true ->
           h' = (h ++ [probe;
                       Run ("git" :: "checkout" :: "-b" :: branch_name
                              :: match @None string with
                                 | Some s => if s =? "" then [] else [s]
                                 | None => []
                                 end) dir])%list).
Proof.
  pose (r := GitCheckoutBranchTool_apply example_world "feature"
                (Some "/workspace/repo") true None []).
  exists (fst r), (snd r). split; [vm_compute; reflexivity|].
  apply (@checkout_follows_probe example_world "feature"
           (Some "/workspace/repo") true None "/workspace/repo" []
           (snd r) (fst r)).
  - vm_compute. reflexivity.
  - vm_compute. reflexivity.
Defined.

Lemma repo_tools_run_git_there_witness :
  exists res h',
    GitPushTool_apply example_world (Some "/etc") "origin" None true false []
    = (res, h')
    /\ exists new,
         h' = ([] ++ new)%list
         /\ match repo_path_or_default example_world (Some "/etc") [] with
            | Ok (Some path) =>
                Forall (git_in (cwd_or_default example_world (Some path))) new
            | _ => new = []
            end.
Proof.
  pose (r := GitPushTool_apply example_world (Some "/etc") "origin" None
                true false []).
  exists (fst r), (snd r). split; [vm_compute; reflexivity|].
  apply (@repo_tools_run_git_there example_world
           (fun repo_path =>
              GitPushTool_apply example_world repo_path "origin" None true
                false)
           (Some "/etc") [] (snd r) (fst r)).
  - apply tool_push.
  - vm_compute. reflexivity.
Defined.

(** ** The tools of [github_tools.py] *)

(** The two results of [_parse_repo_info] are both there, and then tokens,
    or both missing. *)
Lemma parse_repo_info_pair (repo : option string) (owner name : string) :
  _parse_repo_info repo = (Some owner, Some name) ->
  (exists s, repo = Some s) /\ token owner /\ token name.
Proof.
  destruct repo as [s|]; [|discriminate]. intro H.
  split; [now exists s|].
  destruct (parse_cases s) as [(_ & E) | (o & n & E & To & Tn & _)];
    rewrite E in H; [discriminate|].
  injection H as <- <-. now split.
Qed.



(** ** The project of the server and the default repository *)

Lemma argv_tail (argv : list string) :
  (if Nat.ltb 1 (List.length argv) then tl argv else []) = tl argv.
Proof. destruct argv as [|a [|b r]]; reflexivity. Qed.

Lemma project_args_first_repo (w : world) (h : list event)
    (items : list string) :
  (forall item, In item items ->
     let git_dir :=
       posixpath.join (posixpath.join (DEFAULT_WORKSPACE_DIR w) item) ".git" in
     path_isdir w h git_dir = path_exists w h git_dir) ->
  project_args w h items
  = match first_repo w h items with
    | Some p => ["--project"; p]
    | None => []
    end.
Proof.
  induction items as [|item rest IH]; intro A; [reflexivity|].
  cbn [project_args first_repo].
  rewrite (A item (or_introl eq_refl)).
  destruct (path_isdir w h (posixpath.join (DEFAULT_WORKSPACE_DIR w) item));
    cbn [andb].
  - destruct (path_exists w h _); [reflexivity|].
    apply IH. intros i Hi. apply A. now right.
  - apply IH. intros i Hi. apply A. now right.
Qed.

(** X20. When the workspace and every [.git] in its items are directories
    whenever they exist, the project that [entrypoint.py] gives the server is
    the repository that [_get_default_repo_path] gives the tools: the
    arguments are the defaults, then [--project] with that path if there is
    one, then [sys.argv[1:]]; and a listing that raises makes both raise. *)
Theorem entrypoint_project_is_default_repo (w : world) (h : list event)
    (argv : list string) :
  path_isdir w h (DEFAULT_WORKSPACE_DIR w)
  = path_exists w h (DEFAULT_WORKSPACE_DIR w) ->
  (forall items item,
      listdir w h (DEFAULT_WORKSPACE_DIR w) = Ok items ->
      In item items ->
      let git_dir :=
        posixpath.join (posixpath.join (DEFAULT_WORKSPACE_DIR w) item) ".git" in
      path_isdir w h git_dir = path_exists w h git_dir) ->
  match _get_default_repo_path w h with
  | Ok repo =>
      final_args w h argv
      = Ok (default_args
              ++ match repo with
                 | Some path => ["--project"; path]
                 | None => []
                 end
              ++ tl argv)%list
  | Err e => final_args w h argv = Err e
  end.
Proof.
  intros D G. unfold _get_default_repo_path, final_args.
  rewrite argv_tail, D.
  destruct (path_exists w h (DEFAULT_WORKSPACE_DIR w)); cbn [negb];
    [|reflexivity].
  destruct (listdir w h (DEFAULT_WORKSPACE_DIR w)) as [items|e] eqn:L;
    [|reflexivity].
  rewrite (@project_args_first_repo w h items (fun i => G items i eq_refl)).
  reflexivity.
Qed.

Lemma entrypoint_project_is_default_repo_witness :
  match _get_default_repo_path example_world [] with
  | Ok repo =>
      final_args example_world [] ["entrypoint.py"; "--mode"; "planning"]
      = Ok (default_args
              ++ match repo with
                 | Some path => ["--project"; path]
                 | None => []
                 end
              ++ tl ["entrypoint.py"; "--mode"; "planning"])%list
  | Err e =>
      final_args example_world [] ["entrypoint.py"; "--mode"; "planning"]
      = Err e
  end.
Proof.
  apply (@entrypoint_project_is_default_repo example_world []
           ["entrypoint.py"; "--mode"; "planning"]).
  - reflexivity.
  - intros items item L I. vm_compute in L. injection L as <-.
    destruct I as [<- | [<- | []]]; vm_compute; reflexivity.
Defined.
